(** * Data-Breach-Checker: the response-normalisation core

    A shallow embedding of [BreachCheckerApp._flatten_list] and of the
    extraction block of [BreachCheckerApp._display_breach_results]
    (src/breach_checker.py), over a model of the Python values that
    [response.json()] can produce. *)

From Stdlib Require Import ZArith List String Ascii Bool Lia DecimalString
  Permutation.
Import ListNotations.
Local Open Scope string_scope.
Local Open Scope list_scope.

(** ** Python values *)

(** A Python [float], kept as the decimal number it denotes: [nan], an
    infinity, or [+/- digits * 10 ^ exp10]. *)
Inductive pyfloat : Type :=
| FNan
| FInf (negative : bool)
| FDec (negative : bool) (digits : N) (exp10 : Z).

(** The objects a decoded JSON document is made of.  A [dict] keeps its
    items in insertion order; its keys are always [str].  Characters of a
    [str] are code points below 256. *)
#[local] Unset Elimination Schemes.
Inductive value : Type :=
| VNone
| VBool (b : bool)
| VInt (n : Z)
| VFloat (f : pyfloat)
| VStr (s : string)
| VList (items : list value)
| VDict (items : list (string * value)).
#[local] Set Elimination Schemes.

Definition isinstance_str (v : value) : bool :=
  match v with VStr _ => true | _ => false end.

Definition isinstance_list (v : value) : bool :=
  match v with VList _ => true | _ => false end.

Definition isinstance_dict (v : value) : bool :=
  match v with VDict _ => true | _ => false end.

Definition is_None (v : value) : bool :=
  match v with VNone => true | _ => false end.

(** Truth value of an object, as tested by [if], [or] and [and]. *)
Definition truthy (v : value) : bool :=
  match v with
  | VNone => false
  | VBool b => b
  | VInt n => negb (n =? 0)%Z
  | VFloat (FDec _ digits _) => negb (digits =? 0)%N
  | VFloat _ => true
  | VStr s => negb (s =? "")
  | VList items => match items with [] => false | _ => true end
  | VDict items => match items with [] => false | _ => true end
  end.

(** [a or b] *)
Definition py_or (a b : value) : value := if truthy a then a else b.

(** ** Dictionaries *)

Fixpoint lookup (key : string) (items : list (string * value)) : option value :=
  match items with
  | [] => None
  | (k, v) :: rest => if k =? key then Some v else lookup key rest
  end.

(** [key in d] *)
Definition dict_contains (key : string) (items : list (string * value)) : bool :=
  match lookup key items with Some _ => true | None => false end.

(** [d.get(key)] *)
Definition dict_get (items : list (string * value)) (key : string) : value :=
  match lookup key items with Some v => v | None => VNone end.

(** ** [str] and [repr] *)

Definition dquote : ascii := "034"%char.
Definition squote : ascii := "'"%char.
Definition backslash : ascii := "\"%char.

Fixpoint contains_char (c : ascii) (s : string) : bool :=
  match s with
  | EmptyString => false
  | String c' s' => (c' =? c)%char || contains_char c s'
  end.

Definition hex_digit (n : nat) : ascii :=
  match get n "0123456789abcdef" with Some c => c | None => "0"%char end.

(** Code points below 256 that [repr] copies as they are. *)
Definition printable (c : ascii) : bool :=
  let n := nat_of_ascii c in
  ((32 <=? n) && (n <? 127) || (161 <=? n) && negb (n =? 173))%nat.

Definition repr_char (quote c : ascii) : string :=
  if (c =? backslash)%char then String backslash (String backslash "")
  else if (c =? quote)%char then String backslash (String quote "")
  else if (c =? "009")%char then String backslash "t"
  else if (c =? "010")%char then String backslash "n"
  else if (c =? "013")%char then String backslash "r"
  else if printable c then String c ""
  else String backslash
         (String "x" (String (hex_digit (nat_of_ascii c / 16))
                        (String (hex_digit (nat_of_ascii c mod 16)) ""))).

Fixpoint repr_chars (quote : ascii) (s : string) : string :=
  match s with
  | EmptyString => ""
  | String c s' => (repr_char quote c ++ repr_chars quote s')%string
  end.

(** [repr(s)] for a [str]: single quotes, unless the text holds a single
    quote and no double quote. *)
Definition repr_str (s : string) : string :=
  let quote :=
    if contains_char squote s && negb (contains_char dquote s)
    then dquote else squote in
  String quote (repr_chars quote s ++ String quote "")%string.

(** [str(n)] for an [int] *)
Definition str_int (n : Z) : string := NilZero.string_of_int (Z.to_int n).

Fixpoint zeros (n : nat) : string :=
  match n with O => "" | S n' => String "0" (zeros n') end.

(** Removes the zeros at the end of a digit string, counting them. *)
Fixpoint strip_zeros (s : string) : string * nat :=
  match s with
  | EmptyString => ("", O)
  | String c s' =>
      match strip_zeros s' with
      | (EmptyString, k) =>
          if (c =? "0")%char then ("", S k) else (String c "", k)
      | (t, k) => (String c t, k)
      end
  end.

Definition str_exponent (e : Z) : string :=
  let a := NilZero.string_of_uint (N.to_uint (Z.abs_N e)) in
  ((if (e <? 0)%Z then "-" else "+") ++
   (if (length a <? 2)%nat then String "0" a else a))%string.

(** [repr] of a finite nonzero float whose shortest digits are [ds], with
    the decimal point [decpt] places to the right of their start. *)
Definition str_digits (ds : string) (decpt : Z) : string :=
  let n := Z.of_nat (length ds) in
  if ((decpt <=? -4) || (16 <? decpt))%Z then
    (match ds with
     | EmptyString => "0"
     | String d EmptyString => String d ""
     | String d rest => String d (String "." rest)
     end ++ "e" ++ str_exponent (decpt - 1))%string
  else if (decpt <=? 0)%Z then
    ("0." ++ zeros (Z.to_nat (- decpt)) ++ ds)%string
  else if (n <=? decpt)%Z then
    (ds ++ zeros (Z.to_nat (decpt - n)) ++ ".0")%string
  else
    (substring 0 (Z.to_nat decpt) ds ++ "." ++
     substring (Z.to_nat decpt) (length ds - Z.to_nat decpt) ds)%string.

(** [str(f)] for a [float] *)
Definition str_float (f : pyfloat) : string :=
  match f with
  | FNan => "nan"
  | FInf negative => if negative then "-inf" else "inf"
  | FDec negative digits exp10 =>
      ((if negative then "-" else "") ++
       (if (digits =? 0)%N then "0.0"
        else
          let (ds, k) := strip_zeros (NilZero.string_of_uint (N.to_uint digits)) in
          str_digits ds (Z.of_nat (length ds) + (exp10 + Z.of_nat k))))%string
  end.

Fixpoint join (sep : string) (parts : list string) : string :=
  match parts with
  | [] => ""
  | [p] => p
  | p :: rest => (p ++ sep ++ join sep rest)%string
  end.

(** [repr(v)] *)
Fixpoint py_repr (v : value) : string :=
  match v with
  | VNone => "None"
  | VBool b => if b then "True" else "False"
  | VInt n => str_int n
  | VFloat f => str_float f
  | VStr s => repr_str s
  | VList items => ("[" ++ join ", " (map py_repr items) ++ "]")%string
  | VDict items =>
      ("{" ++ join ", " (map (fun kv => repr_str (fst kv) ++ ": " ++ py_repr (snd kv))
                             items) ++ "}")%string
  end.

(** [str(v)] *)
Definition py_str (v : value) : string :=
  match v with
  | VStr s => s
  | _ => py_repr v
  end.

(** ** Exceptions *)

Inductive exception : Type :=
| TypeError
| AttributeError
| KeyError
| RecursionError.

Inductive outcome (A : Type) : Type :=
| Ret (a : A)
| Raise (e : exception).

Arguments Ret {A} a.
Arguments Raise {A} e.

Definition bind {A B : Type} (m : outcome A) (k : A -> outcome B) : outcome B :=
  match m with
  | Ret a => k a
  | Raise e => Raise e
  end.

Notation "x <- m ;; k" := (bind m (fun x => k))
  (at level 61, m at next level, right associativity).

(** [for x in xs: state = body(state, x)], stopping at the first exception. *)
Fixpoint for_each {A S : Type} (xs : list A) (state : S)
    (body : S -> A -> outcome S) : outcome S :=
  match xs with
  | [] => Ret state
  | x :: rest => state' <- body state x ;; for_each rest state' body
  end.

(** [a or b] where evaluating [a] or [b] may raise: [b] is evaluated only
    when [a] is false. *)
Definition or_else (a b : outcome value) : outcome value :=
  v <- a ;; if truthy v then Ret v else b.

(** ** Operations on objects of unknown type *)

Fixpoint is_substring (k s : string) : bool :=
  prefix k s ||
  match s with
  | EmptyString => false
  | String _ s' => is_substring k s'
  end.

(** [key in data], for a [str] key *)
Definition py_contains (data : value) (key : string) : outcome bool :=
  match data with
  | VDict items => Ret (dict_contains key items)
  | VList items =>
      Ret (existsb (fun v => match v with VStr s => s =? key | _ => false end) items)
  | VStr s => Ret (is_substring key s)
  | _ => Raise TypeError
  end.

(** [data[key]], for a [str] key *)
Definition py_getitem (data : value) (key : string) : outcome value :=
  match data with
  | VDict items =>
      match lookup key items with Some v => Ret v | None => Raise KeyError end
  | _ => Raise TypeError
  end.

(** [data.get(key)] *)
Definition py_get (data : value) (key : string) : outcome value :=
  match data with
  | VDict items => Ret (dict_get items key)
  | _ => Raise AttributeError
  end.

(** [data.items()] *)
Definition py_items (data : value) : outcome (list (string * value)) :=
  match data with
  | VDict items => Ret items
  | _ => Raise AttributeError
  end.

(** The items visited by [for item in data] *)
Definition py_iter (data : value) : outcome (list value) :=
  match data with
  | VList items => Ret items
  | VStr s => Ret (map (fun c => VStr (String c "")) (list_ascii_of_string s))
  | VDict items => Ret (map (fun kv => VStr (fst kv)) items)
  | _ => Raise TypeError
  end.

(** ** [_flatten_list] *)

(** The fields probed for the name of a record, in the order of the [or]
    chain. *)
Definition name_fields : list string :=
  ["breach"; "name"; "domain"; "site"; "Name"; "Breach"; "title"].

(** [item.get("breach") or item.get("name") or ... or None] *)
Definition record_name (item : list (string * value)) : value :=
  py_or (dict_get item "breach")
    (py_or (dict_get item "name")
       (py_or (dict_get item "domain")
          (py_or (dict_get item "site")
             (py_or (dict_get item "Name")
                (py_or (dict_get item "Breach")
                   (py_or (dict_get item "title") VNone)))))).

(** [_flatten_list(data)].  The [isinstance] tests are the pattern matching
    on the constructor; [result] is threaded through both loops. *)
Fixpoint flatten_list (data : value) : list value :=
  match data with
  | VStr _ => [] ++ [data]
  | VList items =>
      fold_left
        (fun result item =>
           match item with
           | VStr _ => result ++ [item]
           | VList _ => result ++ flatten_list item
           | VDict fields =>
               let name := record_name fields in
               if truthy name
               then result ++ [VStr (py_str name)]
               else result ++ [VStr (py_str item)]
           | VNone => result
           | _ => result ++ [VStr (py_str item)]
           end)
        items []
  | VDict items =>
      fold_left
        (fun result kv =>
           match snd kv with
           | VList _ => result ++ flatten_list (snd kv)
           | VStr _ => result ++ [snd kv]
           | _ => result
           end)
        items []
  | _ => []
  end.

(** The same body run statement by statement over the operations on objects
    of unknown type, each of which raises as the interpreter does when its
    operand has the wrong type.  [limit] is the interpreter's recursion
    limit: the number of nested calls still allowed. *)
Fixpoint flatten_list_run (limit : nat) (data : value) : outcome (list value) :=
  match limit with
  | O => Raise RecursionError
  | S limit' =>
      let result := [] in
      if isinstance_str data then Ret (result ++ [data])
      else if isinstance_list data then
        items <- py_iter data ;;
        for_each items result
          (fun result item =>
             if isinstance_str item then Ret (result ++ [item])
             else if isinstance_list item then
               sub <- flatten_list_run limit' item ;;
               Ret (result ++ sub)
             else if isinstance_dict item then
               name <-
                 or_else (py_get item "breach")
                   (or_else (py_get item "name")
                      (or_else (py_get item "domain")
                         (or_else (py_get item "site")
                            (or_else (py_get item "Name")
                               (or_else (py_get item "Breach")
                                  (or_else (py_get item "title")
                                     (Ret VNone)))))));;
               if truthy name
               then Ret (result ++ [VStr (py_str name)])
               else Ret (result ++ [VStr (py_str item)])
             else
               if negb (is_None item)
               then Ret (result ++ [VStr (py_str item)])
               else Ret result)
      else if isinstance_dict data then
        items <- py_items data ;;
        for_each items result
          (fun result kv =>
             if isinstance_list (snd kv) then
               sub <- flatten_list_run limit' (snd kv) ;;
               Ret (result ++ sub)
             else if isinstance_str (snd kv) then Ret (result ++ [snd kv])
             else Ret result)
      else Ret result
  end.

(** Depth of the nesting of containers in an object; the recursion of
    [_flatten_list] goes no deeper. *)
Fixpoint depth (v : value) : nat :=
  match v with
  | VList items => S (fold_right (fun item d => Nat.max (depth item) d) O items)
  | VDict items => S (fold_right (fun kv d => Nat.max (depth (snd kv)) d) O items)
  | _ => O
  end.

(** ** The extraction block of [_display_breach_results] *)

Definition possible_keys : list string :=
  ["breaches"; "Breaches"; "BREACHES";
   "breaches_details"; "BreachesDetails";
   "ExposedBreaches"; "exposed_breaches";
   "data"; "Data"; "results"; "Results"].

Definition nested_keys : list string :=
  ["breaches_details"; "breaches"; "Breaches"].

(** [for key in keys: if key in data: breaches_data = data[key]; break],
    entered with [breaches_data = None]. *)
Fixpoint probe (data : value) (keys : list string) : outcome value :=
  match keys with
  | [] => Ret VNone
  | key :: rest =>
      present <- py_contains data key ;;
      if present then py_getitem data key else probe data rest
  end.

(** [for key, value in items: if isinstance(value, list): breaches_data =
    value; break], entered with [breaches_data = None]. *)
Fixpoint first_list (items : list (string * value)) : value :=
  match items with
  | [] => VNone
  | kv :: rest => if isinstance_list (snd kv) then snd kv else first_list rest
  end.

(** The value of [breaches_data] when the search ends: [VNone] when nothing
    was found. *)
Definition breaches_data (data : value) : outcome value :=
  if isinstance_list data then Ret data
  else
    found <- probe data possible_keys ;;
    found <-
      (if is_None found then
         present <- py_contains data "ExposedBreaches" ;;
         if present then
           exposed <- py_getitem data "ExposedBreaches" ;;
           if isinstance_dict exposed then probe exposed nested_keys
           else if isinstance_list exposed then Ret exposed
           else Ret found
         else Ret found
       else Ret found) ;;
    if is_None found then
      items <- py_items data ;;
      Ret (first_list items)
    else Ret found.

(** The value of [breach_list] after the [try] block: an exception leaves
    it empty. *)
Definition breach_list (data : value) : list value :=
  match breaches_data data with
  | Ret found => if negb (is_None found) then flatten_list found else []
  | Raise _ => []
  end.

Definition breach_count (data : value) : nat := List.length (breach_list data).

(** What the window shows. *)
Inductive display : Type :=
| Warning (count : nat) (names : list value)
| Safe.

Definition display_breach_results (data : value) : display :=
  if (0 <? breach_count data)%nat
  then Warning (breach_count data) (breach_list data)
  else Safe.

(** ** Notions used to state the properties *)

(** The first of the name fields, in priority order, whose value passes
    [test]. *)
Definition first_field (test : value -> bool) (fields : list (string * value))
    : option value :=
  find test (map (dict_get fields) name_fields).

(** The object whose string form names a record: the first name field
    passing [test], or the record itself when there is none. *)
Definition resolved_by (test : value -> bool) (fields : list (string * value))
    : value :=
  match first_field test fields with
  | Some v => v
  | None => VDict fields
  end.

Definition not_None (v : value) : bool := negb (is_None v).

(** [key] is the first key of [keys] present in [items], where it has the
    value [v]. *)
Definition first_present (keys : list string) (items : list (string * value))
    (key : string) (v : value) : Prop :=
  exists before after,
    keys = before ++ key :: after /\
    (forall k, In k before -> lookup k items = None) /\
    lookup key items = Some v.

(** Nested sequences whose leaves are all strings. *)
Fixpoint only_strings (v : value) : bool :=
  match v with
  | VStr _ => true
  | VList items => forallb only_strings items
  | _ => false
  end.

(** The leaves of nested sequences, from left to right. *)
Fixpoint leaves (v : value) : list value :=
  match v with
  | VList items => flat_map leaves items
  | _ => [v]
  end.

(** The string [s] is a leaf of nested sequences: [v] itself, or an element,
    at any depth, of the sequence [v]. *)
Fixpoint seq_leaf (s : string) (v : value) : bool :=
  match v with
  | VStr s' => s' =? s
  | VList items => existsb (seq_leaf s) items
  | _ => false
  end.

(** The string [s] is a leaf of the input: of the input itself when that is
    a string or a sequence, of one of its values when it is a mapping. *)
Definition copied_str (s : string) (data : value) : bool :=
  match data with
  | VDict items => existsb (fun kv => seq_leaf s (snd kv)) items
  | _ => seq_leaf s data
  end.

(** The string [s] is the value of one of the name fields of a record. *)
Definition names_record (s : string) (fields : list (string * value)) : bool :=
  existsb
    (fun key =>
       match lookup key fields with
       | Some (VStr s') => s' =? s
       | _ => false
       end)
    name_fields.

(** ... of a record that is an element, at any depth, of the sequence [v]. *)
Fixpoint seq_field (s : string) (v : value) : bool :=
  match v with
  | VList items =>
      existsb
        (fun item =>
           match item with
           | VDict fields => names_record s fields
           | _ => seq_field s item
           end)
        items
  | _ => false
  end.

(** ... of a record in the input: in the input itself when that is a
    sequence, in one of its values when it is a mapping. *)
Definition field_str (s : string) (data : value) : bool :=
  match data with
  | VDict items => existsb (fun kv => seq_field s (snd kv)) items
  | _ => seq_field s data
  end.

(** A text that is neither empty nor the text of the null marker. *)
Definition named (s : string) : Prop := s <> "" /\ s <> "None".

(** A breach name as the data model describes it: such a text, as a string
    object. *)
Definition breach_name (v : value) : Prop :=
  exists s, v = VStr s /\ named s.

(** The value of an item of a mapping is not a sequence. *)
Definition not_a_list (kv : string * value) : Prop :=
  isinstance_list (snd kv) = false.

Definition is_digit (c : ascii) : bool :=
  let n := nat_of_ascii c in ((48 <=? n) && (n <=? 57))%nat.

Fixpoint all_digits (s : string) : bool :=
  match s with
  | EmptyString => true
  | String c s' => is_digit c && all_digits s'
  end.

(** What one iteration over a sequence appends to [result]. *)
Definition item_names (item : value) : list value :=
  match item with
  | VStr _ => [item]
  | VList _ => flatten_list item
  | VDict fields =>
      if truthy (record_name fields)
      then [VStr (py_str (record_name fields))]
      else [VStr (py_str item)]
  | VNone => []
  | _ => [VStr (py_str item)]
  end.

(** What one iteration over the items of a mapping appends to [result]. *)
Definition value_names (kv : string * value) : list value :=
  match snd kv with
  | VList _ => flatten_list (snd kv)
  | VStr _ => [snd kv]
  | _ => []
  end.

(** ** Induction on objects *)

Section ValueInduction.
Variable P : value -> Prop.
Hypothesis case_None : P VNone.
Hypothesis case_Bool : forall b, P (VBool b).
Hypothesis case_Int : forall n, P (VInt n).
Hypothesis case_Float : forall f, P (VFloat f).
Hypothesis case_Str : forall s, P (VStr s).
Hypothesis case_List : forall items, Forall P items -> P (VList items).
Hypothesis case_Dict :
  forall items, Forall (fun kv => P (snd kv)) items -> P (VDict items).

Fixpoint value_ind (v : value) : P v :=
  match v with
  | VNone => case_None
  | VBool b => case_Bool b
  | VInt n => case_Int n
  | VFloat f => case_Float f
  | VStr s => case_Str s
  | VList items =>
      case_List items
        ((fix all (l : list value) : Forall P l :=
            match l with
            | [] => Forall_nil P
            | x :: l' => Forall_cons x (value_ind x) (all l')
            end) items)
  | VDict items =>
      case_Dict items
        ((fix all (l : list (string * value))
            : Forall (fun kv => P (snd kv)) l :=
            match l with
            | [] => Forall_nil _
            | kv :: l' => Forall_cons kv (value_ind (snd kv)) (all l')
            end) items)
  end.
End ValueInduction.

(** ** [_validate_email] *)

Definition in_range (lo hi c : ascii) : bool :=
  ((nat_of_ascii lo <=? nat_of_ascii c) && (nat_of_ascii c <=? nat_of_ascii hi))%nat.

(** The classes of the pattern: [[a-zA-Z0-9._%+-]], [[a-zA-Z0-9.-]] and
    [[a-zA-Z]]. *)
Definition local_class (c : ascii) : bool :=
  in_range "a" "z" c || in_range "A" "Z" c || in_range "0" "9" c ||
  contains_char c "._%+-".

Definition domain_class (c : ascii) : bool :=
  in_range "a" "z" c || in_range "A" "Z" c || in_range "0" "9" c ||
  contains_char c ".-".

Definition alpha_class (c : ascii) : bool :=
  in_range "a" "z" c || in_range "A" "Z" c.

Definition literal (x c : ascii) : bool := (c =? x)%char.

(** The pieces a pattern of this program is a sequence of: one character of
    a class, or [n] or more of them ([+] is one or more). *)
Inductive regex : Type :=
| One (class : ascii -> bool)
| AtLeast (n : nat) (class : ascii -> bool).

(** [$]: the end of the text, or the place before a newline that ends it. *)
Definition at_end (s : string) : bool :=
  match s with
  | EmptyString => true
  | String c EmptyString => (c =? "010")%char
  | _ => false
  end.

(** A greedy repetition: as many characters as the class takes, giving
    them back one at a time while the rest of the pattern, [k], fails. *)
Fixpoint match_at_least (class : ascii -> bool) (n : nat) (k : string -> bool)
    (s : string) (count : nat) : bool :=
  match s with
  | EmptyString => (n <=? count)%nat && k s
  | String c s' =>
      (class c && match_at_least class n k s' (S count)) ||
      ((n <=? count)%nat && k s)
  end.

(** [re.match(pattern, s) is not None] for a pattern between [^] and [$]. *)
Fixpoint re_match (pattern : list regex) (s : string) : bool :=
  match pattern with
  | [] => at_end s
  | One class :: rest =>
      match s with
      | EmptyString => false
      | String c s' => class c && re_match rest s'
      end
  | AtLeast n class :: rest => match_at_least class n (re_match rest) s 0
  end.

(** [^[a-zA-Z0-9._%+-]+@[a-zA-Z0-9.-]+\.[a-zA-Z]{2,}$] *)
Definition email_pattern : list regex :=
  [AtLeast 1 local_class; One (literal "@"); AtLeast 1 domain_class;
   One (literal "."); AtLeast 2 alpha_class].

Definition validate_email (email : string) : bool :=
  re_match email_pattern email.

(** ** [_check_breach] *)

(** [c.isspace()] *)
Definition isspace (c : ascii) : bool :=
  let n := nat_of_ascii c in
  ((9 <=? n) && (n <=? 13) || (28 <=? n) && (n <=? 32) ||
   (n =? 133) || (n =? 160))%nat.

Fixpoint lstrip (s : string) : string :=
  match s with
  | EmptyString => ""
  | String c s' => if isspace c then lstrip s' else s
  end.

Fixpoint rstrip (s : string) : string :=
  match s with
  | EmptyString => ""
  | String c s' =>
      match rstrip s' with
      | EmptyString => if isspace c then "" else String c ""
      | t => String c t
      end
  end.

(** [s.strip()] *)
Definition strip (s : string) : string := rstrip (lstrip s).

Definition lower_char (c : ascii) : ascii :=
  let n := nat_of_ascii c in
  if ((65 <=? n) && (n <=? 90) ||
      (192 <=? n) && (n <=? 222) && negb (n =? 215))%nat
  then ascii_of_nat (n + 32) else c.

(** [s.lower()] *)
Fixpoint lower (s : string) : string :=
  match s with
  | EmptyString => ""
  | String c s' => String (lower_char c) (lower s')
  end.

(** What [_check_breach] does with the text of the entry field: a warning
    box, or the request for an address. *)
Inductive check_step : Type :=
| ShowWarning (title message : string)
| StartRequest (email : string).

Definition check_breach (entry : string) : check_step :=
  let email := lower (strip entry) in
  if email =? "" then
    ShowWarning "Warning" "Please enter an email address!"
  else if negb (validate_email email) then
    ShowWarning "Warning" "Please enter a valid email address!"
  else StartRequest email.

(** ** [_api_request] *)

Definition api_url (email : string) : string :=
  ("https://api.xposedornot.com/v1/check-email/" ++ email)%string.

(** What the window is told to show once the request is over. *)
Inductive screen : Type :=
| Result (shown : display)
| Error (message : string).

(** An exception (an instance of [Exception]) raised while the request is
    made or the body decoded, as the [except] clauses see it: the classes
    it is an instance of, and its text [str(e)]. *)
Record raised : Type := {
  is_connection_error : bool;
  is_timeout : bool;
  is_request_exception : bool;
  text : string
}.

(** What [response.json()] does: it returns the decoded body or raises. *)
Inductive body : Type :=
| Decoded (data : value)
| Undecodable (e : raised).

(** What [requests.get] does: it returns a response, with its status code
    and what decoding its body would do, or raises. *)
Inductive fetched : Type :=
| Responded (status_code : Z) (json : body)
| Failed (e : raised).

(** The [except] clauses, tried in their order.  The callbacks of the last
    two form their text from [e] when they run; the model takes [e] to be
    the exception the clause caught. *)
Definition on_exception (e : raised) : screen :=
  if is_connection_error e then
    Error (String.concat (String "010" "")
             ["No internet connection!";
              "Please check your network and try again."])
  else if is_timeout e then
    Error (String.concat (String "010" "")
             ["Request timed out!";
              "The server took too long to respond."])
  else if is_request_exception e then
    Error (String.concat (String "010" "") ["Network error occurred:"; text e])
  else
    Error (String.concat (String "010" "")
             ["An unexpected error occurred:"; text e]).

Definition api_request (got : fetched) : screen :=
  match got with
  | Responded status_code json =>
      if (status_code =? 200)%Z then
        match json with
        | Decoded data => Result (display_breach_results data)
        | Undecodable e => on_exception e
        end
      else if (status_code =? 404)%Z then Result Safe
      else Error ("Unexpected response from server (Status: " ++
                  str_int status_code ++ ")")%string
  | Failed e => on_exception e
  end.

(** ** More notions used to state the properties *)

Fixpoint all_chars (p : ascii -> bool) (s : string) : bool :=
  match s with
  | EmptyString => true
  | String c s' => p c && all_chars p s'
  end.

Fixpoint count_char (x : ascii) (s : string) : nat :=
  match s with
  | EmptyString => O
  | String c s' => (if (c =? x)%char then 1 else 0) + count_char x s'
  end.

(** The texts [local@domain.tld] that the pattern describes. *)
Definition address (s : string) : Prop :=
  exists local domain tld,
    s = (local ++ "@" ++ domain ++ "." ++ tld)%string /\
    local <> "" /\ all_chars local_class local = true /\
    domain <> "" /\ all_chars domain_class domain = true /\
    2 <= length tld /\ all_chars alpha_class tld = true.

(** A lower-case letter, a digit, or one of [. _ % + - @]. *)
Definition plain_char (c : ascii) : bool :=
  in_range "a" "z" c || in_range "0" "9" c || contains_char c "._%+-@".

(** A string or a sequence: the values of a mapping that the flattener
    looks at. *)
Definition str_or_list (v : value) : bool :=
  isinstance_str v || isinstance_list v.

(** The last character of the text is white space. *)
Fixpoint ends_with_space (s : string) : bool :=
  match s with
  | EmptyString => false
  | String c EmptyString => isspace c
  | String _ s' => ends_with_space s'
  end.

(** ** The frame that lists the breaches *)

(** A row of the list: its place in the grid, the text of its number label
    and the breach its second label shows after a red dot. *)
Record row : Type := {
  grid_row : nat;
  number : string;
  breach : value
}.

(** The frame [breach_list_frame]: whether it is on the grid, and the rows
    it holds. *)
Record frame : Type := {
  shown : bool;
  children : list row
}.

(** [for i, breach in enumerate(breach_list)], from the index [i] on. *)
Fixpoint breach_rows (i : nat) (names : list value) : list row :=
  match names with
  | [] => []
  | name :: rest =>
      {| grid_row := i;
         number := (str_int (Z.of_nat (i + 1)) ++ ".")%string;
         breach := name |} :: breach_rows (S i) rest
  end.

(** What [_clear_results] does to the frame: its rows are destroyed and it
    is taken off the grid. *)
Definition clear_results (f : frame) : frame :=
  {| shown := false; children := [] |}.

(** What [_display_breach_results] does to the frame: with breaches it is
    put on the grid and its rows are replaced; without, it is left as it
    is. *)
Definition list_breaches (f : frame) (data : value) : frame :=
  if (0 <? breach_count data)%nat
  then {| shown := true; children := breach_rows 0 (breach_list data) |}
  else f.

(** ** Shape of the two loops *)

Lemma fold_left_append {A B : Type} (f : B -> list A) (step : list A -> B -> list A)
    (xs : list B) (acc : list A) :
  (forall result x, step result x = result ++ f x) ->
  fold_left step xs acc = acc ++ flat_map f xs.
Proof.
  intros Hstep. revert acc.
  induction xs as [|x xs IH]; intros acc; simpl.
  - now rewrite app_nil_r.
  - rewrite IH, Hstep, app_assoc. reflexivity.
Qed.

Lemma flatten_list_VList (items : list value) :
  flatten_list (VList items) = flat_map item_names items.
Proof.
  cbn [flatten_list].
  rewrite (fold_left_append item_names); [reflexivity|].
  intros result [| | | | |sub|fields]; cbn [item_names];
    try reflexivity.
  - now rewrite app_nil_r.
  - destruct (truthy (record_name fields)); reflexivity.
Qed.

Lemma flatten_list_VDict (items : list (string * value)) :
  flatten_list (VDict items) = flat_map value_names items.
Proof.
  cbn [flatten_list].
  rewrite (fold_left_append value_names); [reflexivity|].
  intros result [key v]; unfold value_names; cbn [snd].
  destruct v; try reflexivity; now rewrite app_nil_r.
Qed.

Lemma flatten_list_app (xs ys : list value) :
  flatten_list (VList (xs ++ ys)) =
  flatten_list (VList xs) ++ flatten_list (VList ys).
Proof. rewrite !flatten_list_VList. apply flat_map_app. Qed.

Lemma flatten_list_cons (x : value) (xs : list value) :
  flatten_list (VList (x :: xs)) = item_names x ++ flatten_list (VList xs).
Proof. rewrite !flatten_list_VList. reflexivity. Qed.

(** ** Every name is a string *)

Lemma Forall_flat_map {A B : Type} (P : B -> Prop) (f : A -> list B) (xs : list A) :
  Forall (fun x => Forall P (f x)) xs -> Forall P (flat_map f xs).
Proof.
  induction 1 as [|x xs Hx _ IH]; simpl.
  - constructor.
  - apply Forall_app. split; assumption.
Qed.

Lemma flatten_list_all_str (data : value) :
  Forall (fun v => isinstance_str v = true) (flatten_list data).
Proof.
  induction data as [| | | |s|items IH|items IH] using value_ind;
    try solve [cbn; repeat constructor].
  - rewrite flatten_list_VList. apply Forall_flat_map.
    eapply Forall_impl; [|exact IH].
    intros item Hitem. destruct item; cbn [item_names];
      try (repeat constructor); try exact Hitem.
    destruct (truthy _); repeat constructor.
  - rewrite flatten_list_VDict. apply Forall_flat_map.
    eapply Forall_impl; [|exact IH].
    intros [key v] Hv. unfold value_names. cbn [snd] in *.
    destruct v; try (repeat constructor); exact Hv.
Qed.

Lemma flatten_list_strings (items : list value) :
  Forall (fun v => isinstance_str v = true) items ->
  flatten_list (VList items) = items.
Proof.
  intros H. rewrite flatten_list_VList.
  induction H as [|x xs Hx _ IH]; simpl.
  - reflexivity.
  - destruct x; try discriminate. cbn [item_names]. simpl. now rewrite IH.
Qed.

(** ** The [or] chain picks the first true field *)

Lemma record_name_resolved (fields : list (string * value)) :
  (if truthy (record_name fields) then record_name fields else VDict fields) =
  resolved_by truthy fields.
Proof.
  unfold record_name, resolved_by, first_field, name_fields, py_or.
  cbn [map find].
  repeat
    match goal with
    | |- context [truthy (dict_get fields ?k)] =>
        let E := fresh "E" in
        destruct (truthy (dict_get fields k)) eqn:E;
        [rewrite ?E; reflexivity|]
    end.
  reflexivity.
Qed.

Lemma item_names_record (fields : list (string * value)) :
  item_names (VDict fields) = [VStr (py_str (resolved_by truthy fields))].
Proof.
  rewrite <- record_name_resolved. cbn [item_names].
  destruct (truthy (record_name fields)); reflexivity.
Qed.

(** A true name comes from one of the name fields of the record. *)
Lemma record_name_field (fields : list (string * value)) :
  truthy (record_name fields) = true ->
  exists key,
    In key name_fields /\ lookup key fields = Some (record_name fields).
Proof.
  unfold record_name, py_or.
  repeat
    match goal with
    | |- context [truthy (dict_get fields ?k)] =>
        let E := fresh "E" in
        destruct (truthy (dict_get fields k)) eqn:E;
        [intros _; exists k; split; [simpl; tauto|];
         revert E; unfold dict_get;
         destruct (lookup k fields); [reflexivity|discriminate]|]
    end.
  discriminate.
Qed.

(** ** Running the body never raises *)

Lemma for_each_ret {A S : Type} (f : S -> A -> S) (body : S -> A -> outcome S)
    (xs : list A) :
  (forall state x, In x xs -> body state x = Ret (f state x)) ->
  forall state, for_each xs state body = Ret (fold_left f xs state).
Proof.
  induction xs as [|x xs IH]; intros Hbody state; simpl.
  - reflexivity.
  - rewrite Hbody by (left; reflexivity). cbn [bind].
    apply IH. intros state' y Hy. apply Hbody. right. exact Hy.
Qed.

Lemma or_else_ret (a b : value) :
  or_else (Ret a) (Ret b) = Ret (py_or a b).
Proof. unfold or_else, py_or. cbn [bind]. destruct (truthy a); reflexivity. Qed.

Lemma depth_item (x : value) (items : list value) :
  In x items -> depth x < depth (VList items).
Proof.
  cbn [depth]. induction items as [|y ys IH]; intros Hin; simpl.
  - destruct Hin.
  - destruct Hin as [->|Hin]; [lia|]. specialize (IH Hin). lia.
Qed.

Lemma depth_value (kv : string * value) (items : list (string * value)) :
  In kv items -> depth (snd kv) < depth (VDict items).
Proof.
  cbn [depth]. induction items as [|y ys IH]; intros Hin; simpl.
  - destruct Hin.
  - destruct Hin as [->|Hin]; [lia|]. specialize (IH Hin). lia.
Qed.

Lemma flatten_list_run_ret (limit : nat) :
  forall data, depth data < limit ->
  flatten_list_run limit data = Ret (flatten_list data).
Proof.
  induction limit as [|limit IH]; intros data Hdepth; [lia|].
  destruct data as [| | | |s|items|items]; try reflexivity.
  - cbn [flatten_list_run isinstance_str isinstance_list py_iter bind flatten_list].
    apply for_each_ret. intros state x Hx.
    apply depth_item in Hx.
    destruct x as [| | | |s|sub|fields]; try reflexivity.
    + cbn [isinstance_str isinstance_list].
      rewrite IH by lia. reflexivity.
    + cbn [isinstance_str isinstance_list isinstance_dict py_get].
      rewrite !or_else_ret. fold (record_name fields). cbn [bind].
      destruct (truthy (record_name fields)); reflexivity.
  - cbn [flatten_list_run isinstance_str isinstance_list isinstance_dict
         py_items bind flatten_list].
    apply for_each_ret. intros state kv Hkv.
    apply depth_value in Hkv.
    destruct kv as [key v]. cbn [snd] in *.
    destruct v as [| | | |s|sub|fields]; try reflexivity.
    cbn [isinstance_list]. rewrite IH by lia. reflexivity.
Qed.

(** ** Probing a mapping in priority order *)

Lemma probe_absent (items : list (string * value)) (keys : list string) :
  (forall k, In k keys -> lookup k items = None) ->
  probe (VDict items) keys = Ret VNone.
Proof.
  induction keys as [|key keys IH]; intros Habsent; simpl.
  - reflexivity.
  - unfold dict_contains. rewrite Habsent by (left; reflexivity).
    cbn [bind]. apply IH. intros k Hk. apply Habsent. right. exact Hk.
Qed.

Lemma probe_first_present (items : list (string * value)) (keys : list string)
    (key : string) (v : value) :
  first_present keys items key v -> probe (VDict items) keys = Ret v.
Proof.
  intros (before & after & -> & Habsent & Hkey).
  induction before as [|k before IH]; simpl.
  - unfold dict_contains. rewrite Hkey. cbn [bind]. reflexivity.
  - unfold dict_contains. rewrite Habsent by (left; reflexivity).
    cbn [bind]. apply IH. intros k' Hk'. apply Habsent. right. exact Hk'.
Qed.

Lemma breaches_data_found (items : list (string * value)) (v : value) :
  probe (VDict items) possible_keys = Ret v -> is_None v = false ->
  breaches_data (VDict items) = Ret v.
Proof.
  intros Hprobe Hv. unfold breaches_data. cbn [isinstance_list].
  rewrite Hprobe. cbn [bind]. rewrite Hv. cbn [bind]. rewrite Hv. reflexivity.
Qed.

(** After a probe that found nothing, and without a usable
    [ExposedBreaches] entry, the scan of the values decides. *)
Lemma breaches_data_scan (items : list (string * value)) :
  probe (VDict items) possible_keys = Ret VNone ->
  dict_get items "ExposedBreaches" = VNone ->
  breaches_data (VDict items) = Ret (first_list items).
Proof.
  intros Hprobe Hexposed. unfold breaches_data. cbn [isinstance_list].
  rewrite Hprobe. cbn [bind is_None py_contains py_getitem].
  unfold dict_contains. unfold dict_get in Hexposed.
  destruct (lookup "ExposedBreaches" items) as [exposed|]; cbn [bind].
  - subst exposed. reflexivity.
  - reflexivity.
Qed.

Lemma first_list_spec (items : list (string * value)) :
  (exists before key l after,
      items = before ++ (key, VList l) :: after /\
      Forall not_a_list before /\
      first_list items = VList l) \/
  (Forall not_a_list items /\ first_list items = VNone).
Proof.
  induction items as [|[key v] items IH]; simpl.
  - right. split; [constructor|reflexivity].
  - destruct (isinstance_list v) eqn:Hv.
    + left. destruct v; try discriminate.
      exists [], key, items0, items. repeat split. constructor.
    + destruct IH as [(before & k & l & after & -> & Hbefore & Hfirst)
                     |[Hnone Hfirst]].
      * left. exists ((key, v) :: before), k, l, after.
        repeat split; [constructor; assumption|exact Hfirst].
      * right. split; [constructor; assumption|exact Hfirst].
Qed.

Lemma possible_keys_exposed : In "ExposedBreaches" possible_keys.
Proof. unfold possible_keys. simpl. tauto. Qed.

(** ** String forms are never empty and never the text [None] *)

Lemma named_head (c : ascii) (s : string) :
  c <> "N"%char -> named (String c s).
Proof. intros Hc. split; [discriminate|]. intros H. apply Hc. congruence. Qed.

Lemma digit_not_N (c : ascii) : is_digit c = true -> c <> "N"%char.
Proof. intros Hc ->. discriminate. Qed.

Lemma all_digits_uint (u : Decimal.uint) :
  all_digits (NilEmpty.string_of_uint u) = true.
Proof. induction u; simpl; auto. Qed.

Lemma all_digits_uint0 (u : Decimal.uint) :
  all_digits (NilZero.string_of_uint u) = true.
Proof. destruct u; try reflexivity; apply all_digits_uint. Qed.

Lemma named_uint0 (u : Decimal.uint) : named (NilZero.string_of_uint u).
Proof.
  destruct u; simpl; apply named_head; discriminate.
Qed.

Lemma named_str_int (n : Z) : named (str_int n).
Proof.
  unfold str_int. destruct n as [|p|p]; cbn [Z.to_int NilZero.string_of_int].
  - apply named_head. discriminate.
  - apply named_uint0.
  - apply named_head. discriminate.
Qed.

Lemma all_digits_strip (s : string) :
  all_digits s = true -> all_digits (fst (strip_zeros s)) = true.
Proof.
  induction s as [|c s IH]; simpl; [reflexivity|].
  intros H. apply andb_prop in H. destruct H as [Hc Hs].
  specialize (IH Hs).
  destruct (strip_zeros s) as [[|d t] k]; simpl in *.
  - destruct (c =? "0")%char; simpl; [reflexivity|]. now rewrite Hc.
  - now rewrite Hc, IH.
Qed.

Lemma named_str_digits (ds : string) (decpt : Z) :
  all_digits ds = true -> named (str_digits ds decpt).
Proof.
  intros Hds. unfold str_digits.
  destruct ((decpt <=? -4) || (16 <? decpt))%Z.
  - destruct ds as [|d [|d' rest]]; simpl in *.
    + apply named_head. discriminate.
    + apply named_head, digit_not_N. now apply andb_prop in Hds.
    + apply named_head, digit_not_N. now apply andb_prop in Hds.
  - destruct (decpt <=? 0)%Z; [apply named_head; discriminate|].
    destruct (Z.of_nat (length ds) <=? decpt)%Z.
    + destruct ds as [|d rest]; simpl in *.
      * destruct (Z.to_nat (decpt - 0)); simpl; apply named_head; discriminate.
      * apply named_head, digit_not_N. now apply andb_prop in Hds.
    + destruct (Z.to_nat decpt) as [|m]; destruct ds as [|d rest]; simpl in *;
        try (apply named_head; discriminate).
      apply named_head, digit_not_N. now apply andb_prop in Hds.
Qed.

Lemma named_str_float (f : pyfloat) : named (str_float f).
Proof.
  destruct f as [|[|]|[|] digits exp10]; simpl;
    try (apply named_head; discriminate).
  destruct (digits =? 0)%N; [apply named_head; discriminate|].
  pose proof (all_digits_strip _ (all_digits_uint0 (N.to_uint digits))) as H.
  destruct (strip_zeros (NilZero.string_of_uint (N.to_uint digits))) as [ds k].
  apply named_str_digits. exact H.
Qed.

Lemma named_repr_str (s : string) : named (repr_str s).
Proof.
  unfold repr_str.
  destruct (contains_char squote s && negb (contains_char dquote s));
    apply named_head; discriminate.
Qed.

Lemma named_py_repr (v : value) : v <> VNone -> named (py_repr v).
Proof.
  destruct v as [|[|]|n|f|s|items|items]; intros Hv; cbn [py_repr].
  - now destruct Hv.
  - apply named_head. discriminate.
  - apply named_head. discriminate.
  - apply named_str_int.
  - apply named_str_float.
  - apply named_repr_str.
  - apply named_head. discriminate.
  - apply named_head. discriminate.
Qed.

Lemma named_py_str (v : value) :
  v <> VNone -> isinstance_str v = false -> named (py_str v).
Proof.
  intros Hv Hstr. destruct v; try discriminate; now apply named_py_repr.
Qed.

Lemma lookup_In (key : string) (items : list (string * value)) (v : value) :
  lookup key items = Some v -> In (key, v) items.
Proof.
  induction items as [|[k w] items IH]; simpl; [discriminate|].
  destruct (k =? key) eqn:Hk.
  - apply String.eqb_eq in Hk. subst k. intros [= ->]. now left.
  - intros H. right. now apply IH.
Qed.

(** ** Where the names come from *)

Lemma record_name_text (fields : list (string * value)) (v : value) :
  In v (item_names (VDict fields)) ->
  exists s,
    v = VStr s /\ (named s \/ (s <> "" /\ names_record s fields = true)).
Proof.
  cbn [item_names].
  destruct (truthy (record_name fields)) eqn:Hname; intros [<-|[]].
  - destruct (record_name_field fields Hname) as (key & Hkey & Hlookup).
    destruct (record_name fields) as [| | | |s| |] eqn:Hrecord;
      try (eexists; split; [reflexivity|left; apply named_py_str;
                            [discriminate|reflexivity]]).
    exists s. split; [reflexivity|]. right. split.
    + intros ->. discriminate.
    + apply existsb_exists. exists key. split; [exact Hkey|].
      rewrite Hlookup. apply String.eqb_refl.
  - eexists. split; [reflexivity|]. left.
    apply named_py_str; [discriminate|reflexivity].
Qed.

Lemma record_name_nonempty (fields : list (string * value)) :
  py_str (resolved_by truthy fields) <> "".
Proof.
  assert (H : In (VStr (py_str (resolved_by truthy fields)))
                (item_names (VDict fields)))
    by (rewrite item_names_record; now left).
  apply record_name_text in H.
  destruct H as (s & [= ->] & [[H _]|[H _]]); exact H.
Qed.

(** The names of nested sequences: copied leaves, produced texts, and the
    strings of name fields. *)
Lemma sequence_names (data : value) :
  match data with
  | VDict _ => True
  | _ =>
      forall v, In v (flatten_list data) ->
      exists s,
        v = VStr s /\
        (seq_leaf s data = true \/ named s \/
         (s <> "" /\ seq_field s data = true))
  end.
Proof.
  induction data as [| | | |s|items IH|items IH] using value_ind;
    try solve [intros v []]; [| |exact I].
  - intros v [<-|[]]. exists s. split; [reflexivity|].
    left. cbn. apply String.eqb_refl.
  - intros v Hv. rewrite flatten_list_VList in Hv.
    apply in_flat_map in Hv. destruct Hv as (item & Hitem & Hv).
    assert (Hleaf : forall s, seq_leaf s item = true ->
                              seq_leaf s (VList items) = true).
    { intros s Hs. cbn [seq_leaf]. apply existsb_exists. now exists item. }
    rewrite Forall_forall in IH. specialize (IH item Hitem).
    destruct item as [|b|n|f|s|sub|fields].
    + destruct Hv.
    + destruct Hv as [<-|[]]. eexists. split; [reflexivity|right; left].
      apply named_py_str; [discriminate|reflexivity].
    + destruct Hv as [<-|[]]. eexists. split; [reflexivity|right; left].
      apply named_py_str; [discriminate|reflexivity].
    + destruct Hv as [<-|[]]. eexists. split; [reflexivity|right; left].
      apply named_py_str; [discriminate|reflexivity].
    + destruct Hv as [<-|[]]. exists s. split; [reflexivity|left].
      apply Hleaf. cbn. apply String.eqb_refl.
    + cbn [item_names] in Hv.
      destruct (IH v Hv) as (s & -> & [Hs|[Hs|[Hne Hs]]]).
      * exists s. split; [reflexivity|left]. now apply Hleaf.
      * exists s. split; [reflexivity|right; now left].
      * exists s. split; [reflexivity|right; right]. split; [exact Hne|].
        cbn [seq_field]. apply existsb_exists. now exists (VList sub).
    + destruct (record_name_text fields v Hv) as (s & -> & [Hs|[Hne Hs]]).
      * exists s. split; [reflexivity|right; now left].
      * exists s. split; [reflexivity|right; right]. split; [exact Hne|].
        cbn [seq_field]. apply existsb_exists. now exists (VDict fields).
Qed.


(** ** Examples from the documentation of the program *)

Example flatten_list_of_lists :
  flatten_list (VList [VList [VStr "Site1"; VStr "Site2"; VStr "Site3"]]) =
  [VStr "Site1"; VStr "Site2"; VStr "Site3"].
Proof. reflexivity. Qed.

Example flatten_mixed_nesting :
  flatten_list (VList [VStr "Site1"; VList [VStr "Site2"; VStr "Site3"]]) =
  [VStr "Site1"; VStr "Site2"; VStr "Site3"].
Proof. reflexivity. Qed.

Example flatten_breach_record :
  flatten_list (VList [VDict [("breach", VStr "Adobe2013")]]) =
  [VStr "Adobe2013"].
Proof. reflexivity. Qed.

Example flatten_unnamed_record :
  flatten_list (VList [VDict [("foo", VStr "bar")]]) =
  [VStr "{'foo': 'bar'}"].
Proof. reflexivity. Qed.

Example flatten_scalars :
  flatten_list (VList [VInt 0; VNone; VBool false; VFloat (FDec false 15 (-1))]) =
  [VStr "0"; VStr "False"; VStr "1.5"].
Proof. reflexivity. Qed.

Example breaches_key_found :
  breaches_data (VDict [("breaches", VList [VStr "A"; VStr "B"])]) =
  Ret (VList [VStr "A"; VStr "B"]).
Proof. reflexivity. Qed.

Example unknown_key_scanned :
  breaches_data (VDict [("unknownKey", VList [VStr "D"])]) =
  Ret (VList [VStr "D"]).
Proof. reflexivity. Qed.

Example unknown_scalar_nothing :
  breaches_data (VDict [("unknownKey", VStr "scalar")]) = Ret VNone.
Proof. reflexivity. Qed.

Example exposed_list_displayed :
  display_breach_results
    (VDict [("ExposedBreaches", VList [VStr "BreachX"; VStr "BreachY"])]) =
  Warning 2 [VStr "BreachX"; VStr "BreachY"].
Proof. reflexivity. Qed.

Example empty_mapping_safe : display_breach_results (VDict []) = Safe.
Proof. reflexivity. Qed.

Example scalar_payload_safe :
  breaches_data (VInt 7) = Raise TypeError /\
  breaches_data (VStr "no data") = Raise TypeError /\
  breaches_data (VStr "plain") = Raise AttributeError /\
  display_breach_results (VStr "plain") = Safe.
Proof. repeat split. Qed.

(** An exception in the search leaves the list empty, and the window shows
    the safe message. *)
Lemma raised_is_safe (data : value) (e : exception) :
  breaches_data data = Raise e ->
  breach_list data = [] /\ display_breach_results data = Safe.
Proof.
  intros H. unfold display_breach_results, breach_count, breach_list.
  rewrite H. split; reflexivity.
Qed.

(** ** The recursive flattener *)

(** C1, as stated, fails: the [or] chain tests truth, not absence of null,
    so an empty [breach] field is passed over and the [name] field is
    used. *)
Lemma empty_breach_field_passed_over :
  flatten_list (VList [VDict [("breach", VStr ""); ("name", VStr "Adobe")]]) <>
  [VStr (py_str (resolved_by not_None
                   [("breach", VStr ""); ("name", VStr "Adobe")]))].
Proof. vm_compute. discriminate. Qed.

(** C1 (amended): a mapping inside a sequence contributes exactly one name,
    in its place: the string form of the first of the fields [breach],
    [name], [domain], [site], [Name], [Breach], [title] whose value is
    true (not null, false, zero or empty), or the string form of the whole
    mapping when no field is; no record is dropped. *)
Theorem flatten_record_first_true_field :
  forall (before : list value) (fields : list (string * value))
         (after : list value),
    flatten_list (VList (before ++ VDict fields :: after)) =
    flatten_list (VList before) ++
    [VStr (py_str (resolved_by truthy fields))] ++
    flatten_list (VList after).
Proof.
  intros before fields after.
  rewrite flatten_list_app, flatten_list_cons, item_names_record.
  reflexivity.
Qed.

(** C3: a sequence of strings is returned unchanged, in order and with its
    duplicates. *)
Theorem flatten_strings_unchanged :
  forall items : list value,
    Forall (fun v => isinstance_str v = true) items ->
    flatten_list (VList items) = items.
Proof. exact flatten_list_strings. Qed.

Lemma flatten_strings_unchanged_witness :
  Forall (fun v => isinstance_str v = true) [VStr "A"; VStr "B"; VStr "A"] /\
  flatten_list (VList [VStr "A"; VStr "B"; VStr "A"]) =
  [VStr "A"; VStr "B"; VStr "A"].
Proof.
  assert (H : Forall (fun v => isinstance_str v = true)
                [VStr "A"; VStr "B"; VStr "A"])
    by (repeat constructor).
  split; [exact H|exact (flatten_strings_unchanged _ H)].
Defined.

(** C4: for nested sequences of any depth whose leaves are all strings, the
    result is the concatenation of the leaves from left to right. *)
Theorem flatten_nested_strings :
  forall data : value,
    only_strings data = true -> flatten_list data = leaves data.
Proof.
  intros data.
  induction data as [| | | |s|items IH|items IH] using value_ind;
    cbn [only_strings]; try discriminate.
  - reflexivity.
  - intros Hall. rewrite flatten_list_VList. cbn [leaves].
    induction IH as [|x xs Hx _ IHxs]; simpl in *.
    + reflexivity.
    + apply andb_prop in Hall. destruct Hall as [Hx' Hxs'].
      rewrite (IHxs Hxs'). f_equal.
      destruct x; try discriminate.
      * reflexivity.
      * cbn [item_names]. apply Hx. exact Hx'.
Qed.

Lemma flatten_nested_strings_witness :
  only_strings
    (VList [VStr "Site1"; VList [VList [VStr "Site2"]; VStr "Site3"]]) = true /\
  flatten_list
    (VList [VStr "Site1"; VList [VList [VStr "Site2"]; VStr "Site3"]]) =
  [VStr "Site1"; VStr "Site2"; VStr "Site3"].
Proof.
  split; [reflexivity|].
  exact (flatten_nested_strings
           (VList [VStr "Site1"; VList [VList [VStr "Site2"]; VStr "Site3"]])
           eq_refl).
Defined.

(** C7: on an object of any shape, nested as deeply as one likes, the body
    of the flattener reaches its [return] with a list and no operation in
    it raises, as soon as the recursion limit exceeds the depth of the
    object. *)
Theorem flatten_never_raises :
  forall (data : value) (spare : nat),
    flatten_list_run (S (depth data) + spare) data = Ret (flatten_list data).
Proof. intros data spare. apply flatten_list_run_ret. lia. Qed.

(** C8, as stated, fails: a string of the input is copied as it is, also
    when it is empty. *)
Lemma empty_string_is_kept :
  ~ Forall breach_name (flatten_list (VList [VStr ""])).
Proof.
  intros H. inversion H as [|v l (s & Hs & Hnonempty & _) _]; subst.
  injection Hs as <-. now apply Hnonempty.
Qed.

(** C8 (amended): every element of the result is a string of one of three
    kinds: a string leaf of the input, copied as it is (so it can be empty,
    or the text [None]); a produced string form, which is neither empty nor
    the text [None]; or the string held by a name field of a record, which
    is not empty.  The name a record contributes is never empty, and a null
    element contributes nothing. *)
Theorem flatten_names_origin :
  (forall data v : value,
      In v (flatten_list data) ->
      exists s,
        v = VStr s /\
        (copied_str s data = true \/ named s \/
         (s <> "" /\ field_str s data = true))) /\
  (forall (before : list value) (fields : list (string * value))
          (after : list value),
      exists s,
        flatten_list (VList (before ++ VDict fields :: after)) =
        flatten_list (VList before) ++ [VStr s] ++ flatten_list (VList after) /\
        s <> "") /\
  (forall before after : list value,
      flatten_list (VList (before ++ VNone :: after)) =
      flatten_list (VList (before ++ after))).
Proof.
  split; [|split].
  - intros data v Hv.
    destruct data as [| | | |s|items|items]; try solve [destruct Hv].
    { exact (sequence_names (VStr s) v Hv). }
    { exact (sequence_names (VList items) v Hv). }
    rewrite flatten_list_VDict in Hv.
    apply in_flat_map in Hv. destruct Hv as ([key w] & Hkv & Hv).
    unfold value_names in Hv. cbn [snd] in Hv.
    destruct w as [|b|n|f|s|sub|fields]; try solve [destruct Hv].
    + destruct Hv as [<-|[]]. exists s. split; [reflexivity|left].
      cbn [copied_str]. apply existsb_exists. exists (key, VStr s).
      split; [exact Hkv|]. cbn. apply String.eqb_refl.
    + destruct (sequence_names (VList sub) v Hv) as (s & -> & [Hs|[Hs|[Hne Hs]]]).
      * exists s. split; [reflexivity|left].
        cbn [copied_str]. apply existsb_exists. now exists (key, VList sub).
      * exists s. split; [reflexivity|right; now left].
      * exists s. split; [reflexivity|right; right]. split; [exact Hne|].
        cbn [field_str]. apply existsb_exists. now exists (key, VList sub).
  - intros before fields after.
    exists (py_str (resolved_by truthy fields)). split.
    + now rewrite flatten_list_app, flatten_list_cons, item_names_record.
    + apply record_name_nonempty.
  - intros before after.
    now rewrite !flatten_list_app, flatten_list_cons.
Qed.

Lemma flatten_names_origin_witness :
  In (VStr "None")
    (flatten_list (VList [VNone; VInt 0; VDict [("name", VStr "None")]])) /\
  exists s,
    VStr "None" = VStr s /\
    (copied_str s (VList [VNone; VInt 0; VDict [("name", VStr "None")]]) = true \/
     named s \/
     (s <> "" /\
      field_str s (VList [VNone; VInt 0; VDict [("name", VStr "None")]]) = true)).
Proof.
  assert (H : In (VStr "None")
                (flatten_list
                   (VList [VNone; VInt 0; VDict [("name", VStr "None")]])))
    by (simpl; tauto).
  split; [exact H|exact (proj1 flatten_names_origin _ _ H)].
Defined.

(** C9: flattening the result of the flattener again gives that same
    result. *)
Theorem flatten_idempotent :
  forall data : value,
    flatten_list (VList (flatten_list data)) = flatten_list data.
Proof.
  intros data. apply flatten_list_strings, flatten_list_all_str.
Qed.

(** C10: whatever the input, every element of the result is a string; an
    input that is no string, sequence or mapping (a number, say) gives the
    empty list. *)
Theorem flatten_all_strings :
  forall data : value,
    Forall (fun v => isinstance_str v = true) (flatten_list data) /\
    (isinstance_str data = false -> isinstance_list data = false ->
     isinstance_dict data = false -> flatten_list data = []).
Proof.
  intros data. split; [apply flatten_list_all_str|].
  destruct data; try discriminate; reflexivity.
Qed.

Lemma flatten_all_strings_witness :
  Forall (fun v => isinstance_str v = true) (flatten_list (VInt 7)) /\
  flatten_list (VInt 7) = [].
Proof.
  split.
  - exact (proj1 (flatten_all_strings (VInt 7))).
  - exact (proj2 (flatten_all_strings (VInt 7)) eq_refl eq_refl eq_refl).
Defined.

(** ** The payload locator *)

(** C2, as stated, fails: [None] is also the mark of "nothing found yet", so
    when the first key present holds null the search goes on and a later
    value is returned. *)
Lemma null_value_not_returned :
  first_present possible_keys
    [("breaches", VNone); ("other", VList [VStr "X"])] "breaches" VNone /\
  breaches_data (VDict [("breaches", VNone); ("other", VList [VStr "X"])]) <>
  Ret VNone.
Proof.
  split.
  - exists [], (tl possible_keys). repeat split. intros k [].
  - vm_compute. discriminate.
Qed.

(** C2 (amended): for a mapping payload, the keys [breaches], [Breaches],
    [BREACHES], [breaches_details], [BreachesDetails], [ExposedBreaches],
    [exposed_breaches], [data], [Data], [results], [Results] are probed in
    that order, and the value of the first key present is returned whatever
    its shape, provided it is not null; no later key is probed.  When that
    value is null it counts as not found: with no usable [ExposedBreaches]
    entry, the scan of the values decides. *)
Theorem probe_returns_first_present :
  forall (items : list (string * value)) (key : string) (v : value),
    first_present possible_keys items key v ->
    (v <> VNone -> breaches_data (VDict items) = Ret v) /\
    (v = VNone -> dict_get items "ExposedBreaches" = VNone ->
     breaches_data (VDict items) = Ret (first_list items)).
Proof.
  intros items key v Hfirst.
  apply probe_first_present in Hfirst. split.
  - intros Hv. apply breaches_data_found; [exact Hfirst|].
    destruct v; try reflexivity. now destruct Hv.
  - intros -> Hexposed. now apply breaches_data_scan.
Qed.

Lemma probe_returns_first_present_witness :
  first_present possible_keys
    [("email", VStr "a@b.c"); ("Data", VInt 3); ("results", VList [VStr "R"])]
    "Data" (VInt 3) /\
  breaches_data
    (VDict [("email", VStr "a@b.c"); ("Data", VInt 3);
            ("results", VList [VStr "R"])]) = Ret (VInt 3).
Proof.
  assert (H : first_present possible_keys
                [("email", VStr "a@b.c"); ("Data", VInt 3);
                 ("results", VList [VStr "R"])] "Data" (VInt 3)).
  { exists (firstn 8 possible_keys), (skipn 9 possible_keys).
    split; [reflexivity|]. split; [|reflexivity].
    intros k Hk. simpl in Hk.
    repeat (destruct Hk as [<-|Hk]; [reflexivity|]). destruct Hk. }
  split; [exact H|].
  apply (proj1 (probe_returns_first_present _ _ _ H)). discriminate.
Defined.

(** C5: the search in the nested [ExposedBreaches] mapping is not reached
    for the payload of the claim.  [ExposedBreaches] is itself one of the
    keys probed first, so its mapping is returned whole; the names then
    come from every list in that mapping, not from [breaches_details]
    alone.  The nested search does what the claim says where it is reached:
    after an earlier key that holds null. *)
Theorem exposed_mapping_returned_whole :
  breaches_data
    (VDict [("ExposedBreaches", VDict [("breaches_details", VList [VStr "C"])])]) =
  Ret (VDict [("breaches_details", VList [VStr "C"])]) /\
  breach_list
    (VDict [("ExposedBreaches",
             VDict [("domains", VList [VStr "Z"]);
                    ("breaches_details", VList [VStr "C"])])]) =
  [VStr "Z"; VStr "C"] /\
  breaches_data
    (VDict [("breaches", VNone);
            ("ExposedBreaches",
             VDict [("domains", VList [VStr "Z"]);
                    ("breaches_details", VList [VStr "C"])])]) =
  Ret (VList [VStr "C"]).
Proof. repeat split. Qed.

(** C6: when none of the probed keys is present, the values of the mapping
    are scanned in order and the first one that is a sequence is returned;
    when no value is a sequence nothing is returned, the list of breaches
    is empty and the safe message is shown. *)
Theorem scan_returns_first_list :
  forall items : list (string * value),
    (forall key, In key possible_keys -> lookup key items = None) ->
    (exists before key l after,
        items = before ++ (key, VList l) :: after /\
        Forall not_a_list before /\
        breaches_data (VDict items) = Ret (VList l)) \/
    (Forall not_a_list items /\
     breaches_data (VDict items) = Ret VNone /\
     breach_list (VDict items) = [] /\
     display_breach_results (VDict items) = Safe).
Proof.
  intros items Habsent.
  assert (Hdata : breaches_data (VDict items) = Ret (first_list items)).
  { apply breaches_data_scan.
    - apply probe_absent. exact Habsent.
    - unfold dict_get. now rewrite (Habsent _ possible_keys_exposed). }
  destruct (first_list_spec items)
    as [(before & key & l & after & Hitems & Hbefore & Hfirst)|[Hnone Hfirst]].
  - left. exists before, key, l, after. rewrite Hdata, Hfirst. auto.
  - right. unfold display_breach_results, breach_count, breach_list.
    rewrite Hdata, Hfirst. auto.
Qed.

Lemma scan_returns_first_list_witness :
  (forall key, In key possible_keys ->
               lookup key [("email", VStr "a@b.c"); ("found", VList [VStr "D"])]
               = None) /\
  ((exists before key l after,
       [("email", VStr "a@b.c"); ("found", VList [VStr "D"])] =
       before ++ (key, VList l) :: after /\
       Forall not_a_list before /\
       breaches_data
         (VDict [("email", VStr "a@b.c"); ("found", VList [VStr "D"])]) =
       Ret (VList l)) \/
   (Forall not_a_list [("email", VStr "a@b.c"); ("found", VList [VStr "D"])] /\
    breaches_data
      (VDict [("email", VStr "a@b.c"); ("found", VList [VStr "D"])]) =
    Ret VNone /\
    breach_list
      (VDict [("email", VStr "a@b.c"); ("found", VList [VStr "D"])]) = [] /\
    display_breach_results
      (VDict [("email", VStr "a@b.c"); ("found", VList [VStr "D"])]) = Safe)).
Proof.
  assert (H : forall key, In key possible_keys ->
                lookup key [("email", VStr "a@b.c"); ("found", VList [VStr "D"])]
                = None).
  { intros key Hkey. simpl in Hkey.
    repeat (destruct Hkey as [<-|Hkey]; [reflexivity|]). destruct Hkey. }
  split; [exact H|exact (scan_returns_first_list _ H)].
Defined.

(** ** Texts *)

Lemma append_empty (s : string) : (s ++ "")%string = s.
Proof. induction s as [|c s IH]; simpl; [reflexivity|now rewrite IH]. Qed.

Lemma append_assoc (a b c : string) :
  ((a ++ b) ++ c)%string = (a ++ (b ++ c))%string.
Proof. induction a as [|x a IH]; simpl; [reflexivity|now rewrite IH]. Qed.

Lemma length_append (a b : string) :
  length (a ++ b)%string = length a + length b.
Proof. induction a as [|x a IH]; simpl; [reflexivity|now rewrite IH]. Qed.

Lemma all_chars_append (p : ascii -> bool) (a b : string) :
  all_chars p (a ++ b)%string = all_chars p a && all_chars p b.
Proof.
  induction a as [|x a IH]; simpl; [reflexivity|].
  now rewrite IH, andb_assoc.
Qed.

Lemma all_chars_weaken (p q : ascii -> bool) (s : string) :
  (forall c, p c = true -> q c = true) ->
  all_chars p s = true -> all_chars q s = true.
Proof.
  intros Hpq. induction s as [|c s IH]; simpl; [reflexivity|].
  intros H. apply andb_prop in H. destruct H as [Hc Hs].
  now rewrite (Hpq c Hc), IH.
Qed.

Lemma all_chars_and (p q : ascii -> bool) (s : string) :
  all_chars p s = true -> all_chars q s = true ->
  all_chars (fun c => p c && q c) s = true.
Proof.
  induction s as [|c s IH]; simpl; [reflexivity|].
  intros Hp Hq. apply andb_prop in Hp, Hq.
  destruct Hp as [-> Hp], Hq as [-> Hq]. now rewrite IH.
Qed.

Lemma count_char_append (x : ascii) (a b : string) :
  count_char x (a ++ b)%string = count_char x a + count_char x b.
Proof.
  induction a as [|c a IH]; simpl; [reflexivity|]. rewrite IH. lia.
Qed.

Lemma count_char_none (p : ascii -> bool) (x : ascii) (s : string) :
  p x = false -> all_chars p s = true -> count_char x s = 0.
Proof.
  intros Hx. induction s as [|c s IH]; simpl; [reflexivity|].
  intros H. apply andb_prop in H. destruct H as [Hc Hs].
  rewrite (IH Hs). destruct (Ascii.eqb_spec c x) as [->|_]; [congruence|reflexivity].
Qed.

(** ** The pattern of an address *)

Lemma match_at_least_spec (class : ascii -> bool) (n : nat) (k : string -> bool)
    (s : string) :
  forall count,
    match_at_least class n k s count = true <->
    exists taken rest,
      s = (taken ++ rest)%string /\ all_chars class taken = true /\
      n <= count + length taken /\ k rest = true.
Proof.
  induction s as [|c s IH]; intros count; simpl.
  - split.
    + intros H. apply andb_prop in H. destruct H as [Hn Hk].
      apply Nat.leb_le in Hn. exists "", "". simpl. repeat split; [lia|exact Hk].
    + intros (taken & rest & Hs & _ & Hn & Hk).
      destruct taken; [|discriminate]. simpl in *. subst rest.
      rewrite Hk, andb_true_r. apply Nat.leb_le. lia.
  - split.
    + intros H. apply orb_prop in H. destruct H as [H|H].
      * apply andb_prop in H. destruct H as [Hc H].
        apply IH in H. destruct H as (taken & rest & -> & Hall & Hn & Hk).
        exists (String c taken), rest. simpl. rewrite Hc, Hall.
        repeat split; [lia|exact Hk].
      * apply andb_prop in H. destruct H as [Hn Hk].
        apply Nat.leb_le in Hn. exists "", (String c s). simpl.
        repeat split; [lia|exact Hk].
    + intros (taken & rest & Hs & Hall & Hn & Hk).
      destruct taken as [|d taken]; simpl in *.
      * subst rest. rewrite Hk, andb_true_r.
        apply orb_true_intro. right. apply Nat.leb_le. lia.
      * injection Hs as <- ->. apply andb_prop in Hall.
        destruct Hall as [Hc Hall]. rewrite Hc. simpl.
        apply orb_true_intro. left. apply IH.
        exists taken, rest. repeat split; [exact Hall|lia|exact Hk].
Qed.

Lemma at_end_spec (s : string) :
  at_end s = true <-> s = "" \/ s = String "010" "".
Proof.
  destruct s as [|c [|d s]]; simpl.
  - split; auto.
  - rewrite Ascii.eqb_eq. split.
    + intros ->. now right.
    + intros [H|H]; [discriminate|congruence].
  - split; [discriminate|intros [H|H]; discriminate].
Qed.

Lemma nonempty_length (s : string) : 1 <= length s <-> s <> "".
Proof.
  destruct s; simpl; split; try lia; try congruence; try discriminate.
Qed.

Lemma validate_email_spec (s : string) :
  validate_email s = true <->
  address s \/ exists w, address w /\ s = (w ++ String "010" "")%string.
Proof.
  unfold validate_email, email_pattern. cbn [re_match]. split.
  - intros H. apply match_at_least_spec in H.
    destruct H as (local & r1 & -> & Hlocal & Hn1 & H).
    destruct r1 as [|c r1]; [discriminate|].
    apply andb_prop in H. destruct H as [Hc H].
    apply Ascii.eqb_eq in Hc. subst c.
    apply match_at_least_spec in H.
    destruct H as (domain & r2 & -> & Hdomain & Hn2 & H).
    destruct r2 as [|c r2]; [discriminate|].
    apply andb_prop in H. destruct H as [Hc H].
    apply Ascii.eqb_eq in Hc. subst c.
    apply match_at_least_spec in H.
    destruct H as (tld & r3 & -> & Htld & Hn3 & H).
    apply at_end_spec in H.
    assert (Haddress : address (local ++ "@" ++ domain ++ "." ++ tld)).
    { exists local, domain, tld. repeat split; try assumption.
      - apply nonempty_length. lia.
      - apply nonempty_length. lia. }
    destruct H as [->| ->].
    + left. now rewrite append_empty.
    + right. eexists. split; [exact Haddress|].
      now rewrite !append_assoc.
  - intros H.
    assert (Hgen : exists w tail, address w /\ s = (w ++ tail)%string /\
                                  at_end tail = true).
    { destruct H as [H|(w & H & ->)].
      - exists s, "". rewrite append_empty. auto.
      - exists w, (String "010" ""). auto. }
    destruct Hgen as (w & tail & (local & domain & tld & -> & Hl & Hlocal &
                                  Hd & Hdomain & Ht & Htld) & -> & Htail).
    apply nonempty_length in Hl, Hd.
    apply match_at_least_spec.
    exists local, ("@" ++ domain ++ "." ++ tld ++ tail)%string.
    repeat split; [now rewrite !append_assoc|exact Hlocal|lia|].
    cbn [append re_match]. change (literal "@" "@") with true. cbn [andb].
    apply match_at_least_spec.
    exists domain, ("." ++ tld ++ tail)%string.
    repeat split; [exact Hdomain|lia|].
    cbn [append re_match]. change (literal "." ".") with true. cbn [andb].
    apply match_at_least_spec.
    exists tld, tail. repeat split; [exact Htld|lia|exact Htail].
Qed.

(** ** Cleaning the text of the entry field *)

Ltac each_char c :=
  destruct c as [[|] [|] [|] [|] [|] [|] [|] [|]]; vm_compute;
  solve [reflexivity | discriminate | intros; reflexivity | intros; discriminate].

Lemma isspace_lower_char (c : ascii) : isspace (lower_char c) = isspace c.
Proof. each_char c. Qed.

Lemma lower_char_idem (c : ascii) : lower_char (lower_char c) = lower_char c.
Proof. each_char c. Qed.

Lemma lower_char_not_upper (c : ascii) :
  in_range "A" "Z" (lower_char c) = false.
Proof. each_char c. Qed.

Lemma plain_char_intro (c : ascii) :
  (local_class c || literal "@" c) && negb (in_range "A" "Z" c) = true ->
  plain_char c = true.
Proof. each_char c. Qed.

Lemma plain_char_not_space (c : ascii) : plain_char c = true -> isspace c = false.
Proof. each_char c. Qed.

Lemma lower_idem (s : string) : lower (lower s) = lower s.
Proof.
  induction s as [|c s IH]; simpl; [reflexivity|].
  now rewrite lower_char_idem, IH.
Qed.

Lemma lower_empty (s : string) : lower s = "" -> s = "".
Proof. destruct s; [reflexivity|discriminate]. Qed.

Lemma lstrip_lower (s : string) : lstrip (lower s) = lower (lstrip s).
Proof.
  induction s as [|c s IH]; simpl; [reflexivity|].
  rewrite isspace_lower_char. destruct (isspace c); [exact IH|reflexivity].
Qed.

Lemma rstrip_lower (s : string) : rstrip (lower s) = lower (rstrip s).
Proof.
  induction s as [|c s IH]; simpl; [reflexivity|].
  rewrite IH, isspace_lower_char.
  destruct (rstrip s); simpl; [destruct (isspace c)|]; reflexivity.
Qed.

Lemma strip_lower (s : string) : strip (lower s) = lower (strip s).
Proof. unfold strip. now rewrite lstrip_lower, rstrip_lower. Qed.

Lemma rstrip_idem (s : string) : rstrip (rstrip s) = rstrip s.
Proof.
  induction s as [|c s IH]; simpl; [reflexivity|].
  destruct (rstrip s) as [|d t] eqn:Hs.
  - destruct (isspace c) eqn:Hc; simpl; [reflexivity|now rewrite Hc].
  - change (rstrip (String c (String d t))) with
      (match rstrip (String d t) with
       | EmptyString => if isspace c then "" else String c ""
       | u => String c u
       end).
    now rewrite IH.
Qed.

Lemma lstrip_head (s : string) :
  lstrip s = "" \/ exists c t, lstrip s = String c t /\ isspace c = false.
Proof.
  induction s as [|c s IH]; simpl; [now left|].
  destruct (isspace c) eqn:Hc; [exact IH|].
  right. now exists c, s.
Qed.

Lemma rstrip_head (c : ascii) (t : string) :
  isspace c = false -> exists t', rstrip (String c t) = String c t'.
Proof.
  intros Hc. simpl. destruct (rstrip t) as [|d u]; rewrite ?Hc; eauto.
Qed.

Lemma strip_idem (s : string) : strip (strip s) = strip s.
Proof.
  unfold strip.
  destruct (lstrip_head s) as [->|(c & t & -> & Hc)]; [reflexivity|].
  destruct (rstrip_head c t Hc) as [t' Ht'].
  rewrite <- (rstrip_idem (String c t)) at 2. f_equal.
  rewrite Ht'. simpl. now rewrite Hc.
Qed.

Lemma normal_form (entry : string) :
  lower (strip (lower (strip entry))) = lower (strip entry).
Proof. now rewrite strip_lower, strip_idem, lower_idem. Qed.

Lemma ends_with_space_rstrip (s : string) : ends_with_space (rstrip s) = false.
Proof.
  induction s as [|c s IH]; simpl; [reflexivity|].
  destruct (rstrip s) as [|d t].
  - destruct (isspace c) eqn:Hc; simpl; [reflexivity|exact Hc].
  - exact IH.
Qed.

Lemma ends_with_space_lower (s : string) :
  ends_with_space (lower s) = ends_with_space s.
Proof.
  induction s as [|c s IH]; [reflexivity|].
  destruct s as [|d s]; [apply isspace_lower_char|exact IH].
Qed.

Lemma ends_with_space_append (w : string) (c : ascii) :
  ends_with_space (w ++ String c "") = isspace c.
Proof.
  induction w as [|d w IH]; [reflexivity|].
  simpl. destruct (w ++ String c "")%string eqn:Hw; [|exact IH].
  destruct w; discriminate.
Qed.

Lemma lstrip_blank (s : string) :
  lstrip s = "" <-> all_chars isspace s = true.
Proof.
  induction s as [|c s IH]; simpl; [tauto|].
  destruct (isspace c); simpl; [exact IH|]. split; discriminate.
Qed.

Lemma rstrip_blank (s : string) :
  rstrip s = "" -> all_chars isspace s = true.
Proof.
  induction s as [|c s IH]; simpl; [reflexivity|].
  destruct (rstrip s) as [|d t]; [|discriminate].
  destruct (isspace c); [intros _; now apply IH|discriminate].
Qed.

Lemma strip_blank (s : string) :
  strip s = "" <-> all_chars isspace s = true.
Proof.
  unfold strip. split.
  - intros H. apply rstrip_blank in H.
    destruct (lstrip_head s) as [Hs|(c & t & Hs & Hc)].
    + now apply lstrip_blank.
    + rewrite Hs in H. simpl in H. now rewrite Hc in H.
  - intros H. apply lstrip_blank in H. now rewrite H.
Qed.

Lemma address_chars (s : string) :
  address s ->
  all_chars (fun c => local_class c || literal "@" c) s = true.
Proof.
  intros (local & domain & tld & -> & _ & Hlocal & _ & Hdomain & _ & Htld).
  rewrite !all_chars_append. simpl.
  rewrite (all_chars_weaken local_class _ local), (all_chars_weaken domain_class _ domain),
    (all_chars_weaken alpha_class _ tld); try assumption; try reflexivity.
  - intros c. each_char c.
  - intros c. each_char c.
  - intros c Hc. now rewrite Hc.
Qed.

Lemma lower_no_upper (s : string) :
  all_chars (fun c => negb (in_range "A" "Z" c)) (lower s) = true.
Proof.
  induction s as [|c s IH]; simpl; [reflexivity|].
  now rewrite lower_char_not_upper, IH.
Qed.

(** ** The search on payloads of every type *)

Lemma probe_str (s : string) (keys : list string) :
  probe (VStr s) keys =
  if existsb (fun key => is_substring key s) keys
  then Raise TypeError else Ret VNone.
Proof.
  induction keys as [|key keys IH]; simpl; [reflexivity|].
  destruct (is_substring key s); simpl; [reflexivity|exact IH].
Qed.

Lemma probe_dict_ret (items : list (string * value)) (keys : list string) :
  exists v, probe (VDict items) keys = Ret v.
Proof.
  induction keys as [|key keys IH]; simpl; [now exists VNone|].
  unfold dict_contains. destruct (lookup key items) as [v|]; simpl.
  - now exists v.
  - exact IH.
Qed.

Lemma breaches_data_dict_ret (items : list (string * value)) :
  exists v, breaches_data (VDict items) = Ret v.
Proof.
  unfold breaches_data. cbn [isinstance_list].
  destruct (probe_dict_ret items possible_keys) as [found ->]. cbn [bind].
  destruct (is_None found) eqn:Hfound; cbn [bind].
  - cbn [py_contains py_getitem bind]. unfold dict_contains.
    destruct (lookup "ExposedBreaches" items) as [exposed|]; cbn [bind].
    + destruct exposed as [| | | | |l|e];
        cbn [isinstance_dict isinstance_list bind]; rewrite ?Hfound;
        cbn [is_None py_items bind]; eauto.
      destruct (probe_dict_ret e nested_keys) as [v ->]. cbn [bind].
      destruct (is_None v); cbn [py_items bind]; eauto.
    + rewrite Hfound. cbn [py_items bind]. eauto.
  - rewrite Hfound. eauto.
Qed.

Lemma breaches_data_str_raise (s : string) :
  exists e, breaches_data (VStr s) = Raise e.
Proof.
  unfold breaches_data. cbn [isinstance_list]. rewrite probe_str.
  destruct (existsb _ possible_keys); cbn [bind]; [eauto|].
  cbn [is_None py_contains bind].
  destruct (is_substring "ExposedBreaches" s); cbn; eauto.
Qed.

Lemma lookup_member (items : list (string * value)) (key : string) (v : value) :
  NoDup (map fst items) -> In (key, v) items -> lookup key items = Some v.
Proof.
  induction items as [|[k w] items IH]; simpl; [intros _ []|].
  intros Hnodup Hin. inversion Hnodup as [|? ? Hk Hrest]; subst.
  destruct Hin as [[= -> ->]|Hin].
  - now rewrite String.eqb_refl.
  - destruct (String.eqb_spec k key) as [->|_].
    + exfalso. apply Hk. apply in_map_iff. now exists (key, v).
    + now apply IH.
Qed.

Lemma lookup_permutation (items items' : list (string * value)) (key : string) :
  NoDup (map fst items) -> Permutation items items' ->
  lookup key items' = lookup key items.
Proof.
  intros Hnodup Hperm.
  assert (Hnodup' : NoDup (map fst items')).
  { eapply Permutation_NoDup; [|exact Hnodup]. now apply Permutation_map. }
  destruct (lookup key items) as [v|] eqn:Hitems.
  - apply lookup_member; [exact Hnodup'|].
    eapply Permutation_in; [exact Hperm|]. now apply lookup_In.
  - destruct (lookup key items') as [v|] eqn:Hitems'; [|reflexivity].
    apply lookup_In in Hitems'.
    apply (Permutation_in _ (Permutation_sym Hperm)) in Hitems'.
    apply (lookup_member _ _ _ Hnodup) in Hitems'. congruence.
Qed.

Lemma display_warning (data : value) (n : nat) (names : list value) :
  display_breach_results data = Warning n names ->
  names = breach_list data /\ n = List.length names /\ 0 < n.
Proof.
  unfold display_breach_results, breach_count.
  destruct (0 <? List.length (breach_list data))%nat eqn:Hn; [|discriminate].
  apply Nat.ltb_lt in Hn. intros [= <- <-]. auto.
Qed.

Lemma breach_list_all_str (data : value) :
  Forall (fun v => isinstance_str v = true) (breach_list data).
Proof.
  unfold breach_list. destruct (breaches_data data) as [found|e]; [|constructor].
  destruct (negb (is_None found)); [apply flatten_list_all_str|constructor].
Qed.

(** A cleaned text that the validation accepts is an address, with nothing
    after it, in lower case. *)
Lemma cleaned_entry_address (entry : string) :
  validate_email (lower (strip entry)) = true ->
  address (lower (strip entry)) /\
  all_chars plain_char (lower (strip entry)) = true.
Proof.
  intros Hvalid.
  assert (Haddress : address (lower (strip entry))).
  { apply validate_email_spec in Hvalid.
    destruct Hvalid as [H|(w & _ & Hw)]; [exact H|].
    pose proof (ends_with_space_lower (strip entry)) as Hend.
    unfold strip in Hend at 2. rewrite ends_with_space_rstrip in Hend.
    rewrite Hw, ends_with_space_append in Hend. discriminate. }
  split; [exact Haddress|].
  eapply all_chars_weaken; [exact plain_char_intro|].
  apply all_chars_and; [now apply address_chars|apply lower_no_upper].
Qed.

(** ** The address that is checked *)

(** X1: the pattern accepts exactly the texts [local@domain.tld] with a
    non-empty local part of letters, digits and [._%+-], a non-empty domain
    of letters, digits, dots and hyphens, and two or more letters after the
    last dot; and such a text followed by one newline. *)
Theorem validate_email_accepts_addresses :
  forall s : string,
    validate_email s = true <->
    address s \/ exists w, address w /\ s = (w ++ String "010" "")%string.
Proof. exact validate_email_spec. Qed.

Lemma validate_email_accepts_addresses_witness :
  validate_email "john.doe+news@mail.example.org" = true.
Proof.
  apply (proj2 (validate_email_accepts_addresses "john.doe+news@mail.example.org")).
  left. exists "john.doe+news", "mail.example", "org".
  repeat split; try reflexivity; try discriminate. simpl. lia.
Defined.

(** X2: a text the validation accepts holds exactly one [@]. *)
Theorem valid_email_one_at_sign :
  forall s : string, validate_email s = true -> count_char "@" s = 1.
Proof.
  intros s H. apply validate_email_spec in H.
  assert (Haddress : forall w, address w -> count_char "@" w = 1).
  { intros w (local & domain & tld & -> & _ & Hlocal & _ & Hdomain & _ & Htld).
    rewrite !count_char_append. cbn [count_char].
    rewrite (count_char_none local_class), (count_char_none domain_class),
      (count_char_none alpha_class); auto. }
  destruct H as [H|(w & H & ->)].
  - now apply Haddress.
  - rewrite count_char_append, (Haddress w H). reflexivity.
Qed.

Lemma valid_email_one_at_sign_witness :
  validate_email "a@b.cc" = true /\ count_char "@" "a@b.cc" = 1.
Proof.
  split; [reflexivity|exact (valid_email_one_at_sign "a@b.cc" eq_refl)].
Defined.

(** X3: a request is started only for the cleaned text of the entry, which
    then is an address with no newline after it, written with lower-case
    letters, digits and [._%+-@] only. *)
Theorem request_is_plain_address :
  forall entry email : string,
    check_breach entry = StartRequest email ->
    email = lower (strip entry) /\ address email /\
    all_chars plain_char email = true.
Proof.
  intros entry email. unfold check_breach.
  destruct (lower (strip entry) =? "") eqn:Hempty; [discriminate|].
  destruct (validate_email (lower (strip entry))) eqn:Hvalid; [|discriminate].
  cbn [negb]. intros [= <-]. split; [reflexivity|].
  now apply cleaned_entry_address.
Qed.

Lemma request_is_plain_address_witness :
  check_breach "  John.Doe@Example.COM " = StartRequest "john.doe@example.com" /\
  address "john.doe@example.com" /\
  all_chars plain_char "john.doe@example.com" = true.
Proof.
  assert (H : check_breach "  John.Doe@Example.COM " =
              StartRequest "john.doe@example.com") by reflexivity.
  split; [exact H|].
  exact (proj2 (request_is_plain_address _ _ H)).
Defined.

(** X4: what [_check_breach] does depends only on the cleaned text: capital
    letters and blanks around the address change nothing, and the address
    of a request, typed again, leads to the same request. *)
Theorem check_breach_normal_form :
  forall entry : string,
    check_breach (lower (strip entry)) = check_breach entry.
Proof.
  intros entry. unfold check_breach. now rewrite normal_form.
Qed.

(** X5: the warning that asks for an address is shown exactly when the
    entry holds nothing but white space. *)
Theorem blank_entry_warning :
  forall entry : string,
    check_breach entry = ShowWarning "Warning" "Please enter an email address!" <->
    all_chars isspace entry = true.
Proof.
  intros entry. unfold check_breach. split.
  - destruct (String.eqb_spec (lower (strip entry)) "") as [Hempty|_].
    + intros _. apply strip_blank. now apply lower_empty.
    + destruct (negb _); discriminate.
  - intros H. apply strip_blank in H. rewrite H. reflexivity.
Qed.

Lemma blank_entry_warning_witness :
  check_breach (String " " (String "009" "")) =
  ShowWarning "Warning" "Please enter an email address!".
Proof.
  apply (proj2 (blank_entry_warning (String " " (String "009" "")))).
  reflexivity.
Defined.

(** ** The answer of the service *)

(** X6: whatever the request did (a response with any status, a body that
    does not decode, an exception of any class), breaches are reported only
    after a response with status 200 whose body decoded; the count shown
    then is the number of names listed, it is not zero, and every name is a
    string. *)
Theorem warning_only_after_200 :
  forall (got : fetched) (n : nat) (names : list value),
    api_request got = Result (Warning n names) ->
    exists data,
      got = Responded 200 (Decoded data) /\ names = breach_list data /\
      n = List.length names /\ 0 < n /\
      Forall (fun v => isinstance_str v = true) names.
Proof.
  intros got n names.
  assert (Hexception : forall e, on_exception e <> Result (Warning n names)).
  { intros e. unfold on_exception.
    destruct (is_connection_error e), (is_timeout e), (is_request_exception e);
      discriminate. }
  destruct got as [status_code json|e]; cbn [api_request].
  - destruct (Z.eqb_spec status_code 200) as [->|_].
    + destruct json as [data|e]; [|intros H; now apply Hexception in H].
      intros [= H]. apply display_warning in H. destruct H as (-> & -> & Hn).
      exists data. repeat split; [exact Hn|apply breach_list_all_str].
    + destruct (status_code =? 404)%Z; discriminate.
  - intros H. now apply Hexception in H.
Qed.

Lemma warning_only_after_200_witness :
  api_request
    (Responded 200 (Decoded (VDict [("breaches", VList [VList [VStr "Adobe"]])]))) =
  Result (Warning 1 [VStr "Adobe"]) /\
  exists data,
    Responded 200 (Decoded (VDict [("breaches", VList [VList [VStr "Adobe"]])])) =
    Responded 200 (Decoded data) /\
    [VStr "Adobe"] = breach_list data /\ 1 = List.length [VStr "Adobe"] /\ 0 < 1 /\
    Forall (fun v => isinstance_str v = true) [VStr "Adobe"].
Proof.
  assert (H : api_request
                (Responded 200
                   (Decoded (VDict [("breaches", VList [VList [VStr "Adobe"]])]))) =
              Result (Warning 1 [VStr "Adobe"])) by reflexivity.
  split; [exact H|exact (warning_only_after_200 _ _ _ H)].
Defined.

(** X7: a response whose body decodes when it is read (it is read for the
    status 200 only) leads to the error message exactly when its status is
    neither 200 nor 404; the message then names the status. *)
Theorem error_only_for_other_status :
  forall (status_code : Z) (json : body),
    (status_code = 200%Z -> exists data, json = Decoded data) ->
    ((exists message, api_request (Responded status_code json) = Error message) <->
     status_code <> 200%Z /\ status_code <> 404%Z) /\
    (status_code <> 200%Z -> status_code <> 404%Z ->
     api_request (Responded status_code json) =
     Error ("Unexpected response from server (Status: " ++
            str_int status_code ++ ")")%string).
Proof.
  intros status_code json Hdecoded. cbn [api_request].
  destruct (Z.eqb_spec status_code 200) as [->|H200].
  - destruct (Hdecoded eq_refl) as [data ->]. split.
    + split; [intros [m H]; discriminate|intros [H _]; now destruct H].
    + intros H. now destruct H.
  - destruct (Z.eqb_spec status_code 404) as [->|H404].
    + split.
      * split; [intros [m H]; discriminate|intros [_ H]; now destruct H].
      * intros _ H. now destruct H.
    + split; [split; [auto|eauto]|reflexivity].
Qed.

Lemma error_only_for_other_status_witness :
  api_request (Responded 503 (Decoded VNone)) =
  Error "Unexpected response from server (Status: 503)".
Proof.
  assert (H : 503%Z = 200%Z -> exists data, Decoded VNone = Decoded data)
    by discriminate.
  apply (proj2 (error_only_for_other_status 503 (Decoded VNone) H));
    discriminate.
Defined.

(** ** More on the flattener *)

(** X8: flattening a mapping is flattening the sequence of its values that
    are strings or sequences; values of any other type, nested mappings
    among them, add nothing. *)
Theorem flatten_mapping_as_values :
  forall items : list (string * value),
    flatten_list (VDict items) =
    flatten_list (VList (filter str_or_list (map snd items))).
Proof.
  intros items. rewrite flatten_list_VDict, flatten_list_VList.
  induction items as [|[key v] items IH]; [reflexivity|].
  cbn [flat_map map snd filter]. rewrite IH. unfold value_names. cbn [snd].
  destruct v; reflexivity.
Qed.

(** X9: a sequence with no sequence among its elements gives one name for
    each element that is not null. *)
Theorem flat_sequence_count :
  forall items : list value,
    Forall (fun v => isinstance_list v = false) items ->
    List.length (flatten_list (VList items)) =
    List.length (filter not_None items).
Proof.
  intros items H. rewrite flatten_list_VList.
  induction H as [|x xs Hx _ IH]; [reflexivity|].
  cbn [flat_map filter]. rewrite length_app, IH.
  destruct x; try discriminate; cbn [item_names not_None is_None negb];
    try reflexivity.
  destruct (truthy _); reflexivity.
Qed.

Lemma flat_sequence_count_witness :
  Forall (fun v => isinstance_list v = false)
    [VStr "A"; VNone; VDict []; VInt 0] /\
  List.length (flatten_list (VList [VStr "A"; VNone; VDict []; VInt 0])) =
  List.length (filter not_None [VStr "A"; VNone; VDict []; VInt 0]).
Proof.
  assert (H : Forall (fun v => isinstance_list v = false)
                [VStr "A"; VNone; VDict []; VInt 0])
    by (repeat constructor).
  split; [exact H|exact (flat_sequence_count _ H)].
Defined.

(** X10: putting a run of elements of a sequence into a nested sequence
    changes nothing. *)
Theorem flatten_unnest :
  forall before inner after : list value,
    flatten_list (VList (before ++ VList inner :: after)) =
    flatten_list (VList (before ++ inner ++ after)).
Proof.
  intros before inner after.
  rewrite !flatten_list_app, flatten_list_cons. reflexivity.
Qed.

(** X11: flattening a sequence made of two parts gives the names of the
    first part followed by those of the second. *)
Theorem flatten_list_distributes :
  forall xs ys : list value,
    flatten_list (VList (xs ++ ys)) =
    flatten_list (VList xs) ++ flatten_list (VList ys).
Proof. intros xs ys. rewrite !flatten_list_VList. apply flat_map_app. Qed.

(** ** More on the search *)

(** X12: the search raises an exception exactly when the payload is neither
    a sequence nor a mapping; on a mapping no key is ever read that is not
    there. *)
Theorem search_raises_iff_scalar :
  forall data : value,
    (exists e, breaches_data data = Raise e) <->
    isinstance_list data = false /\ isinstance_dict data = false.
Proof.
  intros data. split.
  - intros [e H]. destruct data as [| | | | |l|items]; auto.
    + discriminate.
    + destruct (breaches_data_dict_ret items) as [v Hv]. congruence.
  - intros [Hlist Hdict].
    destruct data as [| | | |s| |]; try discriminate;
      try (now exists TypeError).
    apply breaches_data_str_raise.
Qed.

Lemma search_raises_iff_scalar_witness :
  exists e, breaches_data (VStr "no data found") = Raise e.
Proof.
  apply (proj2 (search_raises_iff_scalar (VStr "no data found"))).
  split; reflexivity.
Defined.

(** X13: a payload that is neither a sequence nor a mapping (a string, a
    number, a truth value, null) gives no breach and the safe message. *)
Theorem nonsequence_payload_is_safe :
  forall data : value,
    isinstance_list data = false -> isinstance_dict data = false ->
    breach_list data = [] /\ display_breach_results data = Safe.
Proof.
  intros data Hlist Hdict.
  destruct (proj2 (search_raises_iff_scalar data) (conj Hlist Hdict)) as [e He].
  unfold display_breach_results, breach_count, breach_list.
  rewrite He. split; reflexivity.
Qed.

Lemma nonsequence_payload_is_safe_witness :
  breach_list (VStr "Breaches: Adobe") = [] /\
  display_breach_results (VStr "Breaches: Adobe") = Safe.
Proof.
  exact (nonsequence_payload_is_safe (VStr "Breaches: Adobe") eq_refl eq_refl).
Defined.

(** X15: when the first of the probed keys that is present holds a value
    that is not null, the place of the items in the mapping does not
    matter: a mapping with the same items in another order gives the same
    result. *)
Theorem probe_ignores_item_order :
  forall (items items' : list (string * value)) (key : string) (v : value),
    NoDup (map fst items) -> Permutation items items' ->
    first_present possible_keys items key v -> v <> VNone ->
    breaches_data (VDict items') = Ret v /\
    breaches_data (VDict items) = Ret v.
Proof.
  intros items items' key v Hnodup Hperm Hfirst Hv.
  assert (HNone : is_None v = false)
    by (destruct v; try reflexivity; now destruct Hv).
  split.
  - apply breaches_data_found; [|exact HNone].
    apply (probe_first_present _ _ key).
    destruct Hfirst as (before & after & Hkeys & Habsent & Hkey).
    exists before, after. split; [exact Hkeys|]. split.
    + intros k Hk. rewrite (lookup_permutation items) by assumption.
      now apply Habsent.
    + now rewrite (lookup_permutation items) by assumption.
  - apply breaches_data_found; [|exact HNone].
    now apply (probe_first_present _ _ key).
Qed.

Lemma probe_ignores_item_order_witness :
  breaches_data (VDict [("Data", VList [VStr "B"]); ("data", VList [VStr "A"])]) =
  Ret (VList [VStr "A"]) /\
  breaches_data (VDict [("data", VList [VStr "A"]); ("Data", VList [VStr "B"])]) =
  Ret (VList [VStr "A"]).
Proof.
  apply (probe_ignores_item_order
           [("data", VList [VStr "A"]); ("Data", VList [VStr "B"])]
           [("Data", VList [VStr "B"]); ("data", VList [VStr "A"])]
           "data" (VList [VStr "A"])).
  - repeat constructor; simpl; intuition discriminate.
  - apply perm_swap.
  - exists (firstn 7 possible_keys), (skipn 8 possible_keys).
    split; [reflexivity|]. split; [|reflexivity].
    intros k Hk. simpl in Hk.
    repeat (destruct Hk as [<-|Hk]; [reflexivity|]). destruct Hk.
  - discriminate.
Defined.

(** X16: for a payload of the shape the service documents, a mapping whose
    [breaches] key holds a sequence with one sequence of names in it, the
    list of breaches is that sequence of names and the count its length,
    whatever else the mapping holds. *)
Theorem api_shape_names :
  forall (items : list (string * value)) (names : list value),
    lookup "breaches" items = Some (VList [VList names]) ->
    Forall (fun v => isinstance_str v = true) names ->
    breach_list (VDict items) = names /\
    breach_count (VDict items) = List.length names.
Proof.
  intros items names Hlookup Hnames.
  assert (Hlist : breach_list (VDict items) = names).
  { unfold breach_list.
    rewrite (breaches_data_found items (VList [VList names])); [|
      apply (probe_first_present _ _ "breaches");
      exists [], (tl possible_keys); repeat split; [intros k []|exact Hlookup]
      |reflexivity].
    cbn [is_None negb]. rewrite flatten_list_cons. cbn [item_names].
    rewrite (flatten_list_strings names Hnames). apply app_nil_r. }
  split; [exact Hlist|]. unfold breach_count. now rewrite Hlist.
Qed.

Lemma api_shape_names_witness :
  breach_list
    (VDict [("email", VStr "a@b.cc");
            ("breaches", VList [VList [VStr "Adobe"; VStr "Canva"]])]) =
  [VStr "Adobe"; VStr "Canva"] /\
  breach_count
    (VDict [("email", VStr "a@b.cc");
            ("breaches", VList [VList [VStr "Adobe"; VStr "Canva"]])]) = 2.
Proof.
  apply (api_shape_names
           [("email", VStr "a@b.cc");
            ("breaches", VList [VList [VStr "Adobe"; VStr "Canva"]])]
           [VStr "Adobe"; VStr "Canva"]).
  - reflexivity.
  - repeat constructor.
Defined.

(** X17: the search inside an [ExposedBreaches] mapping runs after a probed
    key that holds null: then, if the first of [breaches_details],
    [breaches], [Breaches] that is present in that mapping holds a value
    that is not null, this value is the result. *)
Theorem nested_exposed_after_null :
  forall (items exposed : list (string * value)) (key nested : string)
         (v : value),
    first_present possible_keys items key VNone ->
    lookup "ExposedBreaches" items = Some (VDict exposed) ->
    first_present nested_keys exposed nested v -> v <> VNone ->
    breaches_data (VDict items) = Ret v.
Proof.
  intros items exposed key nested v Hfirst Hexposed Hnested Hv.
  unfold breaches_data. cbn [isinstance_list].
  rewrite (probe_first_present _ _ _ _ Hfirst).
  cbn [bind is_None py_contains py_getitem]. unfold dict_contains.
  rewrite Hexposed. cbn [bind isinstance_dict].
  rewrite (probe_first_present _ _ _ _ Hnested). cbn [bind].
  destruct v; try reflexivity. now destruct Hv.
Qed.

Lemma nested_exposed_after_null_witness :
  breaches_data
    (VDict [("breaches", VNone);
            ("ExposedBreaches", VDict [("Breaches", VList [VStr "C"])])]) =
  Ret (VList [VStr "C"]).
Proof.
  apply (nested_exposed_after_null
           [("breaches", VNone);
            ("ExposedBreaches", VDict [("Breaches", VList [VStr "C"])])]
           [("Breaches", VList [VStr "C"])] "breaches" "Breaches").
  - exists [], (tl possible_keys). repeat split. intros k [].
  - reflexivity.
  - exists (firstn 2 nested_keys), []. split; [reflexivity|].
    split; [|reflexivity].
    intros k Hk. simpl in Hk.
    repeat (destruct Hk as [<-|Hk]; [reflexivity|]). destruct Hk.
  - discriminate.
Defined.

(** ** The list on the screen *)

Lemma breach_rows_length (names : list value) :
  forall i, List.length (breach_rows i names) = List.length names.
Proof.
  induction names as [|name names IH]; intros i; simpl; [reflexivity|].
  now rewrite IH.
Qed.

Lemma breach_rows_nth (names : list value) :
  forall i k name,
    nth_error names k = Some name ->
    nth_error (breach_rows i names) k =
    Some {| grid_row := i + k;
            number := (str_int (Z.of_nat (i + k + 1)) ++ ".")%string;
            breach := name |}.
Proof.
  induction names as [|x names IH]; intros i k name Hk.
  - destruct k; discriminate.
  - destruct k as [|k]; simpl in *.
    + injection Hk as ->. now rewrite Nat.add_0_r.
    + rewrite (IH (S i) k name Hk).
      now replace (S i + k) with (i + S k) by lia.
Qed.

(** X18: when breaches are listed, whatever the frame held before, it is on
    the grid with one row for each breach, and the row at place [k] shows
    the number [k + 1] and the [k]-th name of the list. *)
Theorem listed_rows_numbered :
  forall (f : frame) (data : value) (k : nat) (name : value),
    nth_error (breach_list data) k = Some name ->
    shown (list_breaches f data) = true /\
    List.length (children (list_breaches f data)) = breach_count data /\
    nth_error (children (list_breaches f data)) k =
    Some {| grid_row := k;
            number := (str_int (Z.of_nat (k + 1)) ++ ".")%string;
            breach := name |}.
Proof.
  intros f data k name Hk. unfold list_breaches, breach_count.
  destruct (breach_list data) as [|x names] eqn:Hlist.
  - destruct k; discriminate.
  - cbn [List.length Nat.ltb Nat.leb shown children].
    split; [reflexivity|]. split.
    + apply breach_rows_length.
    + apply (breach_rows_nth (x :: names) 0 k name Hk).
Qed.

Lemma listed_rows_numbered_witness :
  nth_error (children
               (list_breaches {| shown := true; children := [] |}
                  (VList [VStr "Adobe"; VStr "Canva"]))) 1 =
  Some {| grid_row := 1; number := "2."; breach := VStr "Canva" |}.
Proof.
  exact (proj2 (proj2 (listed_rows_numbered
                         {| shown := true; children := [] |}
                         (VList [VStr "Adobe"; VStr "Canva"]) 1 (VStr "Canva")
                         eq_refl))).
Defined.

(** X19: after the results are cleared and a payload is displayed, the frame
    holds exactly as many rows as there are breaches, and it is on the grid
    exactly when there is one: no row of an earlier check is left. *)
Theorem cleared_frame_matches_count :
  forall (f : frame) (data : value),
    List.length (children (list_breaches (clear_results f) data)) =
    breach_count data /\
    shown (list_breaches (clear_results f) data) = (0 <? breach_count data)%nat.
Proof.
  intros f data. unfold list_breaches, clear_results.
  destruct (0 <? breach_count data)%nat eqn:Hcount; cbn [shown children].
  - split; [apply breach_rows_length|reflexivity].
  - apply Nat.ltb_ge in Hcount. split; [simpl; lia|reflexivity].
Qed.

(** X20: the address of a request is put after the fixed path of the
    service as it is, and holds no [/], [?], [#], [&] or blank: it cannot
    change the path or add a query to the URL that is fetched. *)
Theorem request_url_path_fixed :
  forall entry email : string,
    check_breach entry = StartRequest email ->
    api_url email =
    ("https://api.xposedornot.com/v1/check-email/" ++ lower (strip entry))%string /\
    forall c : ascii,
      In c ["/"; "?"; "#"; "&"; " "]%char -> count_char c email = 0.
Proof.
  intros entry email H.
  assert (Hplain : email = lower (strip entry) /\
                   all_chars plain_char email = true).
  { revert H. unfold check_breach.
    destruct (lower (strip entry) =? ""); [discriminate|].
    destruct (validate_email (lower (strip entry))) eqn:Hvalid; [|discriminate].
    cbn [negb]. intros [= <-]. split; [reflexivity|].
    now apply cleaned_entry_address. }
  destruct Hplain as [Hemail Hplain]. split.
  - unfold api_url. now rewrite Hemail.
  - intros c Hc. apply (count_char_none plain_char); [|exact Hplain].
    simpl in Hc. repeat (destruct Hc as [<-|Hc]; [reflexivity|]). destruct Hc.
Qed.

Lemma request_url_path_fixed_witness :
  api_url "john.doe@example.com" =
  "https://api.xposedornot.com/v1/check-email/john.doe@example.com" /\
  forall c : ascii,
    In c ["/"; "?"; "#"; "&"; " "]%char ->
    count_char c "john.doe@example.com" = 0.
Proof.
  exact (request_url_path_fixed " John.Doe@Example.com" "john.doe@example.com"
           eq_refl).
Defined.

(** ** The only way the flattener fails *)

Lemma for_each_ret_or {A S : Type} (f : S -> A -> S) (body : S -> A -> outcome S)
    (e : exception) (xs : list A) :
  (forall state x, In x xs ->
                   body state x = Ret (f state x) \/ body state x = Raise e) ->
  forall state,
    for_each xs state body = Ret (fold_left f xs state) \/
    for_each xs state body = Raise e.
Proof.
  induction xs as [|x xs IH]; intros Hbody state; simpl; [now left|].
  destruct (Hbody state x (or_introl eq_refl)) as [-> | ->]; cbn [bind].
  - apply IH. intros state' y Hy. apply Hbody. now right.
  - now right.
Qed.

(** X21: whatever the recursion limit, running the flattener either returns
    the list [flatten_list] gives or stops on the recursion limit; no
    operation in it is ever applied to an object of the wrong type. *)
Theorem flatten_fails_only_by_depth :
  forall (limit : nat) (data : value),
    flatten_list_run limit data = Ret (flatten_list data) \/
    flatten_list_run limit data = Raise RecursionError.
Proof.
  induction limit as [|limit IH]; intros data; [now right|].
  destruct data as [| | | |s|items|items]; try (now left).
  - cbn [flatten_list_run isinstance_str isinstance_list py_iter bind flatten_list].
    apply for_each_ret_or. intros state x _.
    destruct x as [| | | |s|sub|fields]; try (now left).
    + cbn [isinstance_str isinstance_list].
      destruct (IH (VList sub)) as [-> | ->]; cbn [bind]; auto.
    + left. cbn [isinstance_str isinstance_list isinstance_dict py_get].
      rewrite !or_else_ret. fold (record_name fields). cbn [bind].
      destruct (truthy (record_name fields)); reflexivity.
  - cbn [flatten_list_run isinstance_str isinstance_list isinstance_dict
         py_items bind flatten_list].
    apply for_each_ret_or. intros state [key v] _. cbn [snd].
    destruct v as [| | | |s|sub|fields]; try (now left).
    cbn [isinstance_list].
    destruct (IH (VList sub)) as [-> | ->]; cbn [bind]; auto.
Qed.
